(** * Video downloader service: a shallow embedding of
      [video-downloader/server.js]

    The service keeps an in-memory job store ([downloadStatus], a JS [Map]),
    drives a headless browser through a download pipeline
    ([downloadVideoWithPuppeteer]), picks the downloaded file out of the
    downloads directory, and serves it over HTTP.  A periodic sweep
    ([cleanupOldFiles]) removes old files.

    Modelling conventions
    - times are milliseconds since the epoch and sizes are bytes, both [Z];
    - the downloads directory is a finite map from entry name to file
      metadata ([gmap string File]); a path is always [DOWNLOADS_DIR/name];
    - the job store [downloadStatus] is a [gmap string StatusRecord];
    - code that throws, awaits or writes the store runs in the monad [M]
      (state plus exceptions); the behaviour of the browser and of the
      remote page is an oracle record ([Browser]). *)

From Stdlib Require Import ZArith String Ascii List Bool Lia Sorted.
From Stdlib Require QArith.
From stdpp Require Import gmap strings list fin_maps.

Open Scope Z_scope.

(** ** JavaScript string predicates used by the source *)

Module JsString.

(** [s.startsWith(p)] *)
Fixpoint startsWith (s p : string) {struct p} : bool :=
  match p with
  | EmptyString => true
  | String a p' =>
      match s with
      | EmptyString => false
      | String b s' => if Ascii.eqb a b then startsWith s' p' else false
      end
  end.

(** [s.includes(sub)]: [sub] starts at some position of [s]. *)
Fixpoint includes (s sub : string) : bool :=
  startsWith s sub ||
  match s with
  | EmptyString => false
  | String _ s' => includes s' sub
  end.

(** [s.endsWith(suf)]: some tail of [s] is [suf]. *)
Fixpoint endsWith (s suf : string) : bool :=
  String.eqb s suf ||
  match s with
  | EmptyString => false
  | String _ s' => endsWith s' suf
  end.

End JsString.

(** ** Results of calls that may throw *)

Inductive Outcome (A : Type) : Type :=
| Ok (a : A)
| Throw (msg : string).
Arguments Ok {A} a.
Arguments Throw {A} msg.

(** ** The downloads directory *)

Record File := mkFile { mtime : Z; size : Z }.

(** A path below [DOWNLOADS_DIR]: [path.join(DOWNLOADS_DIR, name)].
    [basename] is [path.basename]. *)
Record Path := DownloadsPath { basename : string }.

Module Fs.

(** [fs.readdir(DOWNLOADS_DIR)].  The directory is created at start-up
    ([fs.ensureDirSync]), so the listing itself does not fail here. *)
Definition readdir (disk : gmap string File) : Outcome (list string) :=
  Ok (elements (dom disk)).

(** [fs.stat] / [fs.statSync]: fails on a missing entry. *)
Definition stat (disk : gmap string File) (p : Path) : Outcome File :=
  match disk !! basename p with
  | Some f => Ok f
  | None => Throw "ENOENT: no such file or directory"
  end.

(** [fs.existsSync] / [fs.pathExists] *)
Definition exists_ (disk : gmap string File) (p : Path) : bool :=
  bool_decide (is_Some (disk !! basename p)).

(** [fs.unlink]; the source ignores its error. *)
Definition unlink (disk : gmap string File) (p : Path) : gmap string File :=
  delete (basename p) disk.

(** [fs.move(src, dst, { overwrite: true })]: a rename inside the
    directory, which keeps the file's metadata. *)
Definition move (disk : gmap string File) (src dst : Path)
  : Outcome (gmap string File) :=
  match disk !! basename src with
  | Some f => Ok (<[basename dst := f]> (delete (basename src) disk))
  | None => Throw "ENOENT: no such file or directory"
  end.

End Fs.

(** ** The periodic sweep: [cleanupOldFiles] (server.js 28-46) *)

Definition RETENTION_MS : Z := 60 * 60 * 1000.

(** Body of [files.forEach(file => ...)] for one entry. *)
Definition cleanupOne (oneHourAgo : Z) (disk : gmap string File)
    (file : string) : gmap string File :=
  let filePath := DownloadsPath file in
  match Fs.stat disk filePath with
  | Throw _ => disk                                   (* if (err) return; *)
  | Ok stats =>
      if mtime stats <? oneHourAgo
      then Fs.unlink disk filePath
      else disk
  end.

Definition cleanupOldFiles (now : Z) (disk : gmap string File)
    : gmap string File :=
  let oneHourAgo := now - RETENTION_MS in
  match Fs.readdir disk with
  | Throw _ => disk                                   (* if (err) return; *)
  | Ok files => fold_left (cleanupOne oneHourAgo) files disk
  end.

(** ** JSON values (request and response bodies) *)

#[local] Unset Elimination Schemes.
Inductive Json :=
| JNull
| JBool (b : bool)
| JNum (n : Z)
| JStr (s : string)
| JArr (items : list Json)
| JObj (fields : list (string * Json)).
#[local] Set Elimination Schemes.

(** JavaScript truthiness, as used by [!videoUrl].  A field that is absent
    from the body ([undefined]) is [None]. *)
Definition truthy (v : option Json) : bool :=
  match v with
  | None => false
  | Some JNull => false
  | Some (JBool b) => b
  | Some (JNum n) => negb (n =? 0)
  | Some (JStr s) => negb (String.eqb s "")
  | Some (JArr _) => true
  | Some (JObj _) => true
  end.

(** ** The job store: [downloadStatus] *)

Inductive Status :=
| starting | loading | filling | processing | downloading
| completed | error.

Definition Status_eqb (a b : Status) : bool :=
  match a, b with
  | starting, starting | loading, loading | filling, filling
  | processing, processing | downloading, downloading
  | completed, completed | error, error => true
  | _, _ => false
  end.

(** The string stored in the [status] field. *)
Definition statusName (s : Status) : string :=
  match s with
  | starting => "starting"
  | loading => "loading"
  | filling => "filling"
  | processing => "processing"
  | downloading => "downloading"
  | completed => "completed"
  | error => "error"
  end.

Record StatusRecord := mkStatus {
  status : Status;
  progress : Z;
  message : string;
  filePath : option Path;     (* present on 'completed' records only *)
  fileSize : option Z
}.

(** Position of a status in the pipeline; both final statuses come after
    every intermediate one. *)
Definition phaseRank (s : Status) : Z :=
  match s with
  | starting => 0
  | loading => 1
  | filling => 2
  | processing => 3
  | downloading => 4
  | completed => 5
  | error => 5
  end.

Definition terminal (s : Status) : bool :=
  match s with
  | completed | error => true
  | _ => false
  end.

(** ** Program state and the monad of the pipeline *)

(** [writes] is a ghost log of every [downloadStatus.set], oldest first. *)
Record World := mkWorld {
  downloadStatus : gmap string StatusRecord;
  disk : gmap string File;
  writes : list (string * StatusRecord)
}.

Definition M (A : Type) : Type := World -> Outcome A * World.

Definition ret {A} (a : A) : M A := fun w => (Ok a, w).

Definition bind {A B} (m : M A) (k : A -> M B) : M B :=
  fun w =>
    match m w with
    | (Ok a, w') => k a w'
    | (Throw msg, w') => (Throw msg, w')
    end.

Definition throw {A} (msg : string) : M A := fun w => (Throw msg, w).

(** [await e] where the environment decides how [e] settles. *)
Definition await {A} (o : Outcome A) : M A := fun w => (o, w).

(** [try { body } catch (error) { handler(error.message) }] *)
Definition try_catch {A} (body : M A) (handler : string -> M A) : M A :=
  fun w =>
    match body w with
    | (Ok a, w') => (Ok a, w')
    | (Throw msg, w') => handler msg w'
    end.

(** [try { body } finally { fin }]: an exception of [fin] replaces the
    result of [body]. *)
Definition try_finally {A} (body : M A) (fin : M unit) : M A :=
  fun w =>
    match body w with
    | (r, w') =>
        match fin w' with
        | (Ok _, w'') => (r, w'')
        | (Throw msg, w'') => (Throw msg, w'')
        end
    end.

Declare Scope js_scope.
Delimit Scope js_scope with js.
Notation "x <- m ;; k" := (bind m (fun x => k))
  (at level 100, m at next level, right associativity) : js_scope.
Notation "m ;;; k" := (bind m (fun _ => k))
  (at level 100, right associativity) : js_scope.
Open Scope js_scope.

(** [downloadStatus.set(downloadId, record)] *)
Definition setStatus (downloadId : string) (r : StatusRecord) : M unit :=
  fun w =>
    (Ok tt, {| downloadStatus := <[downloadId := r]> (downloadStatus w);
               disk := disk w;
               writes := writes w ++ [(downloadId, r)] |}).

Definition getDisk : M (gmap string File) := fun w => (Ok (disk w), w).

Definition putDisk (d : gmap string File) : M unit :=
  fun w =>
    (Ok tt,
     {| downloadStatus := downloadStatus w; disk := d; writes := writes w |}).

(** Short-circuit [a || e] and [a && e] where [e] may throw. *)
Definition or_else (a : bool) (e : Outcome bool) : Outcome bool :=
  if a then Ok true else e.
Definition and_then (a : bool) (e : Outcome bool) : Outcome bool :=
  if a then e else Ok false.

(** [Array.prototype.filter] with a callback that may throw. *)
Fixpoint filterO {A} (p : A -> Outcome bool) (l : list A)
    : Outcome (list A) :=
  match l with
  | [] => Ok []
  | x :: xs =>
      match p x with
      | Throw msg => Throw msg
      | Ok b =>
          match filterO p xs with
          | Throw msg => Throw msg
          | Ok ys => Ok (if b then x :: ys else ys)
          end
      end
  end.

(** [Array.prototype.reduce] without an initial value. *)
Fixpoint foldO {A} (f : A -> A -> Outcome A) (l : list A) (acc : A)
    : Outcome A :=
  match l with
  | [] => Ok acc
  | x :: xs =>
      match f acc x with
      | Throw msg => Throw msg
      | Ok acc' => foldO f xs acc'
      end
  end.

Definition reduceO {A} (f : A -> A -> Outcome A) (l : list A) : Outcome A :=
  match l with
  | [] => Throw "TypeError: Reduce of empty array with no initial value"
  | x :: xs => foldO f xs x
  end.

(** ** What the browser and the remote page do

    Every awaited call of the pipeline settles the way this record says:
    [Ok] when the promise resolves, [Throw msg] when it rejects with an
    error whose message is [msg]. *)
Record Browser := mkBrowser {
  launch : Outcome unit;              (* puppeteer.launch *)
  newPage : Outcome unit;             (* newPage, setViewport, setUserAgent *)
  goto : Outcome unit;                (* page.goto *)
  waitForSelector : Outcome unit;     (* page.waitForSelector *)
  urlInput : Outcome bool;            (* page.$(...): is there an element *)
  typeUrl : Outcome unit;             (* click, evaluate, type *)
  settle3s : Outcome unit;            (* page.waitForTimeout(3000) *)
  submitForm : Outcome unit;          (* form lookup and submit *)
  findDownloadButton : Outcome bool;  (* is there a button *)
  screenshot : Outcome File;          (* page.screenshot to debug_<id>.png *)
  pageContent : Outcome unit;         (* page.evaluate for the debug dump *)
  describeButton : Outcome unit;      (* downloadButton.evaluate *)
  setDownloadBehavior : Outcome unit; (* page._client.send *)
  click : Outcome unit;               (* downloadButton.click *)
  downloadDetected : bool;            (* downloadPromise resolved in time *)
  downloaded : gmap string File;      (* files the browser saved *)
  settle10s : Outcome unit;           (* page.waitForTimeout(10000) *)
  now : Z;                            (* Date.now() while filtering *)
  close : Outcome unit                (* browser.close *)
}.

Inductive JobResult :=
| JobSuccess (downloadId : string) (path : Path) (bytes : Z) (msg : string)
| JobFailure (downloadId : string) (err : string).

(** ** The download pipeline: [downloadVideoWithPuppeteer] (52-319) *)

Definition MIN_SIZE : Z := 1000.
Definition RECENCY_MS : Z := 60000.

(** [`${downloadId}.${format}`] *)
Definition canonicalName (downloadId format : string) : string :=
  downloadId +:+ "." +:+ format.

Definition Path_eqb (p q : Path) : bool :=
  String.eqb (basename p) (basename q).

(** Callback of [files.filter] (247-251). *)
Definition isVideoFile (d : gmap string File) (now : Z)
    (downloadId file : string) : Outcome bool :=
  or_else (JsString.includes file downloadId)
    (and_then (JsString.endsWith file ".mp4" || JsString.endsWith file ".mp3")
       match Fs.stat d (DownloadsPath file) with
       | Ok st => Ok (mtime st >? now - RECENCY_MS)
       | Throw msg => Throw msg
       end).

(** Callback of [videoFiles.reduce] (256-260). *)
Definition newer (d : gmap string File) (latest current : string)
    : Outcome string :=
  let latestPath := DownloadsPath latest in
  let currentPath := DownloadsPath current in
  match Fs.stat d currentPath with
  | Throw msg => Throw msg
  | Ok c =>
      match Fs.stat d latestPath with
      | Throw msg => Throw msg
      | Ok l => Ok (if mtime c >? mtime l then current else latest)
      end
  end.

(** Lines 56-243 after the first await: drive the page until the download
    had time to finish. *)
Definition driveBrowser (env : Browser) (videoUrl : Json)
    (downloadId : string) : M unit :=
  await (launch env) ;;;
  await (newPage env) ;;;
  setStatus downloadId
    (mkStatus loading 10 "Cargando kick-video.download..." None None) ;;;
  await (goto env) ;;;
  setStatus downloadId
    (mkStatus filling 25 "Ingresando URL del video..." None None) ;;;
  await (waitForSelector env) ;;;
  found <- await (urlInput env) ;;
  (if found then ret tt else throw "No se encontró el campo de URL") ;;;
  await (typeUrl env) ;;;
  setStatus downloadId
    (mkStatus processing 50 "Procesando video..." None None) ;;;
  await (settle3s env) ;;;
  try_catch (await (submitForm env)) (fun _ => ret tt) ;;;
  downloadButton <- await (findDownloadButton env) ;;
  (if downloadButton then ret tt
   else
     shot <- await (screenshot env) ;;
     d <- getDisk ;;
     putDisk (<["debug_" +:+ downloadId +:+ ".png" := shot]> d) ;;;
     await (pageContent env) ;;;
     throw "No se encontró el botón de descarga. Ver debug screenshot.") ;;;
  await (describeButton env) ;;;
  setStatus downloadId
    (mkStatus downloading 75 "Iniciando descarga..." None None) ;;;
  await (setDownloadBehavior env) ;;;
  await (click env) ;;;
  d <- getDisk ;;
  putDisk (downloaded env ∪ d) ;;;
  try_catch
    (await (if downloadDetected env then Ok tt
            else Throw "Timeout esperando descarga"))
    (fun _ => ret tt) ;;;
  await (settle10s env).

(** Lines 245-271: find the downloaded file and give it its final name. *)
Definition locateDownload (env : Browser) (downloadId format : string)
    : M Path :=
  let downloadPath := DownloadsPath (canonicalName downloadId format) in
  d <- getDisk ;;
  files <- await (Fs.readdir d) ;;
  videoFiles <- await (filterO (isVideoFile d (now env) downloadId) files) ;;
  match videoFiles with
  | [] => ret downloadPath                       (* videoFiles.length > 0 *)
  | _ :: _ =>
      latestFile <- await (reduceO (newer d) videoFiles) ;;
      let oldPath := DownloadsPath latestFile in
      let finalPath := DownloadsPath (canonicalName downloadId format) in
      (if negb (Path_eqb oldPath finalPath)
       then d' <- await (Fs.move d oldPath finalPath) ;; putDisk d'
       else ret tt) ;;;
      ret finalPath
  end.

(** Lines 273-299: check the file and record success. *)
Definition validateDownload (downloadId : string) (finalPath : Path)
    : M JobResult :=
  d <- getDisk ;;
  if Fs.exists_ d finalPath then
    stats <- await (Fs.stat d finalPath) ;;
    if size stats >? MIN_SIZE then
      setStatus downloadId
        (mkStatus completed 100 "Descarga completada exitosamente"
           (Some finalPath) (Some (size stats))) ;;;
      ret (JobSuccess downloadId finalPath (size stats)
             "Descarga completada exitosamente")
    else throw "Archivo descargado está vacío o es muy pequeño"
  else throw "No se pudo completar la descarga".

Definition materialize (env : Browser) (downloadId format : string)
    : M JobResult :=
  finalPath <- locateDownload env downloadId format ;;
  validateDownload downloadId finalPath.

(** The part of the function body that runs synchronously inside the call
    (up to the first [await]) ... *)
Definition beforeFirstAwait (downloadId : string) : M unit :=
  setStatus downloadId (mkStatus starting 0 "Iniciando navegador..." None None).

(** ... and the rest, which runs later from the event loop. *)
Definition afterFirstAwait (env : Browser) (videoUrl : Json)
    (format downloadId : string) : M JobResult :=
  driveBrowser env videoUrl downloadId ;;;
  materialize env downloadId format.

(** [catch (error) { ... }] (301-313) *)
Definition onError (downloadId : string) (msg : string) : M JobResult :=
  setStatus downloadId (mkStatus error 0 ("Error: " +:+ msg) None None) ;;;
  ret (JobFailure downloadId msg).

(** [finally { if (browser) await browser.close(); }]; [browser] is set
    exactly when [puppeteer.launch] resolved. *)
Definition closeBrowser (env : Browser) : M unit :=
  match launch env with
  | Ok _ => await (close env)
  | Throw _ => ret tt
  end.

Definition downloadVideoWithPuppeteer (env : Browser) (videoUrl : Json)
    (format downloadId : string) : M JobResult :=
  try_finally
    (try_catch
       (beforeFirstAwait downloadId ;;;
        afterFirstAwait env videoUrl format downloadId)
       (onError downloadId))
    (closeBrowser env).

(** The continuation of a call that already ran [beforeFirstAwait]. *)
Definition resumeDownload (env : Browser) (videoUrl : Json)
    (format downloadId : string) : M JobResult :=
  try_finally
    (try_catch (afterFirstAwait env videoUrl format downloadId)
       (onError downloadId))
    (closeBrowser env).

(** ** The HTTP surface *)

(** What a handler sends: a JSON body with a status code, or a file piped
    to the response with the headers set before. *)
Inductive Response :=
| RespJson (code : Z) (body : Json)
| RespStream (code : Z) (headers : list (string * Json)) (src : Path).

Definition statusCode (r : Response) : Z :=
  match r with
  | RespJson c _ => c
  | RespStream c _ _ => c
  end.

Definition header (name : string) (r : Response) : option Json :=
  match r with
  | RespJson _ _ => None
  | RespStream _ hs _ =>
      snd <$> List.find (fun h => String.eqb (fst h) name) hs
  end.

(** The fields read from [req.body] by [POST /download]; [None] is a field
    that is absent. *)
Record DownloadRequest := mkRequest {
  videoUrl : option Json;
  format : option Json;
  title : option Json
}.

(** A job whose pipeline was called and now waits on its first [await]. *)
Record Task := mkTask {
  taskUrl : Json;
  taskFormat : string;
  taskId : string
}.

(** The running service: program state plus the calls of
    [downloadVideoWithPuppeteer] that have not been resumed yet. *)
Record Server := mkServer {
  world : World;
  pending : list Task
}.

(** [['mp4', 'mp3'].includes(format)]: strict equality with one of the two
    strings; gives the string back when the test passes. *)
Definition supportedFormat (format : Json) : option string :=
  match format with
  | JStr s => if String.eqb s "mp4" || String.eqb s "mp3" then Some s else None
  | _ => None
  end.

(** [app.post('/download', ...)] (334-368).  [uuid] is what [uuidv4()]
    returns.  The call of [downloadVideoWithPuppeteer] is not awaited: it
    runs up to its first [await] and the handler goes on to respond. *)
Definition postDownload (req : DownloadRequest) (uuid : string)
    (srv : Server) : Response * Server :=
  let format := default (JStr "mp4") (format req) in
  if negb (truthy (videoUrl req)) then
    (RespJson 400
       (JObj [("error", JStr "URL del video es requerida");
              ("required_fields", JArr [JStr "videoUrl"]);
              ("optional_fields", JArr [JStr "format"; JStr "title"])]),
     srv)
  else
    match supportedFormat format with
    | None =>
        (RespJson 400
           (JObj [("error", JStr "Formato inválido. Use mp4 o mp3");
                  ("supported_formats", JArr [JStr "mp4"; JStr "mp3"])]),
         srv)
    | Some fmt =>
        let downloadId := uuid in
        let url := default JNull (videoUrl req) in
        let w := snd (beforeFirstAwait downloadId (world srv)) in
        (RespJson 200
           (JObj [("success", JBool true);
                  ("downloadId", JStr downloadId);
                  ("message", JStr "Descarga iniciada");
                  ("statusUrl", JStr ("/status/" +:+ downloadId));
                  ("downloadUrl", JStr ("/file/" +:+ downloadId))]),
         {| world := w;
            pending := pending srv ++ [mkTask url fmt downloadId] |})
    end.

Definition dquote : string := String "034"%char EmptyString.

(** [app.get('/file/:downloadId', ...)] (390-432).  An exception in the
    handler reaches the error middleware (465-471). *)
Definition getFile (downloadId : string) (w : World) : Response :=
  match downloadStatus w !! downloadId with
  | None =>
      RespJson 404
        (JObj [("error", JStr "ID de descarga no encontrado");
               ("downloadId", JStr downloadId)])
  | Some st =>
      if negb (Status_eqb (status st) completed) then
        RespJson 202
          (JObj [("error", JStr "Descarga aún en progreso");
                 ("status", JStr (statusName (status st)));
                 ("progress", JNum (progress st));
                 ("message", JStr (message st))])
      else
        let fileMissing :=
          RespJson 404
            (JObj [("error", JStr "Archivo no encontrado");
                   ("downloadId", JStr downloadId)]) in
        match filePath st with
        | None => fileMissing            (* fs.existsSync(undefined) *)
        | Some filePath =>
            if negb (Fs.exists_ (disk w) filePath) then fileMissing
            else
              let filename := basename filePath in
              match Fs.stat (disk w) filePath with
              | Throw msg =>
                  RespJson 500
                    (JObj [("error", JStr "Error interno del servidor");
                           ("message", JStr msg)])
              | Ok stats =>
                  let fileSize := size stats in
                  RespStream 200
                    [("Content-Disposition",
                      JStr ("attachment; filename=" +:+ dquote +:+
                            filename +:+ dquote));
                     ("Content-Length", JNum fileSize);
                     ("Content-Type", JStr "application/octet-stream")]
                    filePath
              end
        end
  end.

(** One run of the periodic sweep on the program state. *)
Definition sweep (now : Z) (w : World) : World :=
  {| downloadStatus := downloadStatus w;
     disk := cleanupOldFiles now (disk w);
     writes := writes w |}.

(** ** The service as a transition system

    A request, the resumption of a waiting pipeline and a sweep are the
    events of the event loop.  A resumed pipeline is run to its end in one
    step: pipelines of different jobs write different keys of the store, so
    interleaving them at their [await]s does not change what is written for
    one job.  [step_disk] stands for everything else that changes the
    directory.  [uuidv4] never returns an identifier it returned before;
    [issued] is the list of those already handed out. *)

Definition issued (srv : Server) : list string :=
  map fst (writes (world srv)).

Inductive step : Server -> Server -> Prop :=
| step_post req uuid srv :
    uuid ∉ issued srv ->
    step srv (snd (postDownload req uuid srv))
| step_resume env t before after srv :
    pending srv = before ++ t :: after ->
    step srv
      {| world := snd (resumeDownload env (taskUrl t) (taskFormat t)
                         (taskId t) (world srv));
         pending := before ++ after |}
| step_sweep now srv :
    step srv {| world := sweep now (world srv); pending := pending srv |}
| step_disk d srv :
    step srv
      {| world := {| downloadStatus := downloadStatus (world srv);
                     disk := d;
                     writes := writes (world srv) |};
         pending := pending srv |}.

Inductive reachable : Server -> Prop :=
| reach_init d : reachable {| world := mkWorld ∅ d []; pending := [] |}
| reach_step s s' : reachable s -> step s s' -> reachable s'.

(** The statuses written for one job, oldest first. *)
Definition statusesOf (downloadId : string) (log : list (string * StatusRecord))
    : list Status :=
  map (fun e => status (snd e))
      (List.filter (fun e => String.eqb (fst e) downloadId) log).

(** A walk through the phases: the statuses never go back in the ordering,
    and nothing follows a final status. *)
Definition phaseWalk (l : list Status) : Prop :=
  StronglySorted (fun a b => phaseRank a <= phaseRank b) l /\
  forall (i : nat) s, l !! i = Some s -> terminal s = true -> l !! S i = None.

(** The identifiers of the jobs that wait to be resumed. *)
Definition pendingIds (srv : Server) : list string :=
  map taskId (pending srv).

(** ** Auxiliary notions used to state the properties *)

(** The filter test on a file whose metadata is known. *)
Definition matches (now : Z) (downloadId file : string) (f : File) : bool :=
  JsString.includes file downloadId ||
  ((JsString.endsWith file ".mp4" || JsString.endsWith file ".mp3") &&
   (mtime f >? now - RECENCY_MS)).

(** The listed files that pass the filter. *)
Definition candidates (d : gmap string File) (now : Z) (downloadId : string)
    : list string :=
  List.filter
    (fun file =>
       match d !! file with
       | Some f => matches now downloadId file f
       | None => false
       end)
    (elements (dom d)).

(** What the sweep leaves of an entry. *)
Definition kept (oneHourAgo : Z) (f : File) : option File :=
  if mtime f <? oneHourAgo then None else Some f.

(** The store obtained by applying a log of writes to a store. *)
Definition replay (log : list (string * StatusRecord))
    (s : gmap string StatusRecord) : gmap string StatusRecord :=
  fold_left (fun s e => <[fst e := snd e]> s) log s.

Definition statusOfEntry (e : string * StatusRecord) : Status :=
  status (snd e).

(** The intermediate statuses, in the order the pipeline writes them. *)
Definition browserPhases : list Status :=
  [loading; filling; processing; downloading].

(** The three shapes the status sequence of a job can have: nothing yet
    (the identifier was never issued), just 'starting' (the job waits to be
    resumed), or a finished run. *)
Definition jobShape (srv : Server) (downloadId : string) : Prop :=
  let seq := statusesOf downloadId (writes (world srv)) in
  (seq = [] /\ (downloadId ∉ issued srv) /\ (downloadId ∉ pendingIds srv)) \/
  (seq = [starting] /\ (downloadId ∈ pendingIds srv)) \/
  ((downloadId ∉ pendingIds srv) /\
   exists mid final, seq = starting :: mid ++ [final] /\
     mid `prefix_of` browserPhases /\ terminal final = true).

Definition serverInv (srv : Server) : Prop :=
  NoDup (pendingIds srv) /\ forall downloadId, jobShape srv downloadId.

(** ** The other routes *)

(** A path as the string stored in [filePath]: the entry name below the
    downloads directory ([path.join] with the POSIX separator).  The
    directory is [path.join(__dirname, 'downloads')], fixed at start-up. *)
Definition pathString (downloadsDir : string) (p : Path) : string :=
  downloadsDir +:+ "/" +:+ basename p.

(** The own properties of a stored record, in insertion order: what
    [...status] spreads into a response. *)
Definition statusFields (downloadsDir : string) (st : StatusRecord)
    : list (string * Json) :=
  [("status", JStr (statusName (status st)));
   ("progress", JNum (progress st));
   ("message", JStr (message st))] ++
  match filePath st with
  | Some p => [("filePath", JStr (pathString downloadsDir p))]
  | None => []
  end ++
  match fileSize st with
  | Some n => [("fileSize", JNum n)]
  | None => []
  end.

(** [app.get('/status/:downloadId', ...)] (371-387); [timestamp] is
    [new Date().toISOString()]. *)
Definition getStatus (downloadsDir timestamp downloadId : string) (w : World)
    : Response :=
  match downloadStatus w !! downloadId with
  | None =>
      RespJson 404
        (JObj [("error", JStr "ID de descarga no encontrado");
               ("downloadId", JStr downloadId)])
  | Some st =>
      RespJson 200
        (JObj (("downloadId", JStr downloadId) ::
               statusFields downloadsDir st ++
               [("timestamp", JStr timestamp)]))
  end.

(** Name of the screenshot taken when no download button is found
    ([`debug_${downloadId}.png`], lines 168 and 437). *)
Definition debugName (downloadId : string) : string :=
  "debug_" +:+ downloadId +:+ ".png".

(** [app.get('/debug/:downloadId', ...)] (435-449) *)
Definition getDebug (downloadId : string) (w : World) : Response :=
  let screenshotPath := DownloadsPath (debugName downloadId) in
  if negb (Fs.exists_ (disk w) screenshotPath) then
    RespJson 404
      (JObj [("error", JStr "Screenshot de debug no encontrado");
             ("downloadId", JStr downloadId)])
  else
    RespStream 200 [("Content-Type", JStr "image/png")] screenshotPath.

(** ** The search for the download button inside the page (123-161)

    The function passed to [page.evaluate] works on the list of clickable
    elements that [document.querySelectorAll] returns.  An element is
    described by what the function reads from it; a property that is
    [null] or [undefined] is [None].  Lengths are the numbers of
    [getBoundingClientRect], which are rationals.  [toLowerCase] is the
    JavaScript built-in. *)

Module Page.

Record Element := mkElement {
  textContent : option string;
  value : option string;
  title : option string;
  ariaLabel : option string;          (* getAttribute('aria-label') *)
  width : QArith_base.Q;              (* getBoundingClientRect().width *)
  height : QArith_base.Q;
  display : string;                   (* getComputedStyle(el).display *)
  visibility : string
}.

Definition downloadKeywords : list string :=
  ["download"; "descargar"; "get video"; "best quality";
   "mp4"; "baixar"; "télécharger"; "scaricare"; "herunterladen"].

(** [q > n] for a whole number [n]. *)
Definition exceeds (q : QArith_base.Q) (n : Z) : bool :=
  negb (QArith_base.Qle_bool q (QArith_base.Qmake n 1)).

Section WithToLowerCase.
Variable toLowerCase : string -> string.

(** [x?.toLowerCase() || ''] *)
Definition lowerOrEmpty (x : option string) : string :=
  default "" (toLowerCase <$> x).

(** [[text, value, title, ariaLabel].join(' ')] *)
Definition allText (element : Element) : string :=
  lowerOrEmpty (textContent element) +:+ " " +:+
  lowerOrEmpty (value element) +:+ " " +:+
  lowerOrEmpty (title element) +:+ " " +:+
  lowerOrEmpty (ariaLabel element).

(** [downloadKeywords.some(keyword => allText.includes(keyword))] *)
Definition hasKeyword (element : Element) : bool :=
  existsb (fun keyword => JsString.includes (allText element) keyword)
    downloadKeywords.

(** Callback of [clickableElements.filter] (150-157). *)
Definition prominent (el : Element) : bool :=
  exceeds (width el) 100 && exceeds (height el) 30 &&
  negb (String.eqb (display el) "none") &&
  negb (String.eqb (visibility el) "hidden").

(** The [for] loop returns the first element with a keyword; otherwise
    [prominentButtons[0] || null]. *)
Definition findDownloadButton (clickableElements : list Element)
    : option Element :=
  match List.find hasKeyword clickableElements with
  | Some element => Some element
  | None => head (List.filter prominent clickableElements)
  end.

End WithToLowerCase.
End Page.

(** ** More auxiliary notions *)

(** The modification time of a listed entry (0 for a missing one). *)
Definition mtimeOf (d : gmap string File) (name : string) : Z :=
  match d !! name with
  | Some f => mtime f
  | None => 0
  end.



(** The returned value and the record left for the job say the same. *)
Definition resultAgrees (env : Browser) (downloadId : string)
    (r : Outcome JobResult) (w : World) : Prop :=
  match r with
  | Ok (JobSuccess i p bytes msg) =>
      i = downloadId /\
      downloadStatus w !! downloadId
        = Some (mkStatus completed 100 msg (Some p) (Some bytes))
  | Ok (JobFailure i err) =>
      i = downloadId /\
      downloadStatus w !! downloadId
        = Some (mkStatus error 0 ("Error: " +:+ err) None None)
  | Throw msg => launch env = Ok tt /\ close env = Throw msg
  end.

(** ** Sample inputs *)

(** Two downloads and a stale file already under the final name: the newer
    download replaces the stale file. *)
Definition sampleDisk : gmap string File :=
  <["a.mp4" := mkFile 100 5000]>
    (<["b.mp4" := mkFile 200 7000]>
       (<["job1.mp4" := mkFile 50 10]> ∅)).

Definition sampleBrowser : Browser :=
  {| launch := Ok tt; newPage := Ok tt; goto := Ok tt;
     waitForSelector := Ok tt; urlInput := Ok true; typeUrl := Ok tt;
     settle3s := Ok tt; submitForm := Ok tt; findDownloadButton := Ok true;
     screenshot := Ok (mkFile 0 0); pageContent := Ok tt;
     describeButton := Ok tt; setDownloadBehavior := Ok tt; click := Ok tt;
     downloadDetected := true; downloaded := ∅; settle10s := Ok tt;
     now := 300; close := Ok tt |}.

(** Sample records of a finished and of a failed job. *)
Definition doneRecord : StatusRecord :=
  mkStatus completed 100 "Descarga completada exitosamente"
    (Some (DownloadsPath "job1.mp4")) (Some 7000).

Definition failedRecord : StatusRecord :=
  mkStatus error 0 "Error: Timeout" None None.

(** Lower case for unaccented Latin letters, enough for the samples. *)
Fixpoint asciiLower (s : string) : string :=
  match s with
  | EmptyString => EmptyString
  | String c rest =>
      let n := nat_of_ascii c in
      String (if ((65 <=? n) && (n <=? 90))%nat
              then ascii_of_nat (n + 32) else c)
             (asciiLower rest)
  end.

(** A large sign-up button and a small download link. *)
Definition signUpButton : Page.Element :=
  Page.mkElement (Some "Sign up") None (Some "") None
    (QArith_base.Qmake 320 1) (QArith_base.Qmake 48 1) "block" "visible".

Definition downloadLink : Page.Element :=
  Page.mkElement (Some "Download MP4") None (Some "") None
    (QArith_base.Qmake 161 2) (QArith_base.Qmake 18 1) "inline" "visible".

(** * Properties *)

(** ** String predicates *)

Section StringSpecs.
Import JsString.

Lemma startsWith_spec s p :
  startsWith s p = true <-> exists t, s = p +:+ t.
Proof.
  revert s; induction p as [|a p IH]; intros s; simpl.
  - split; [intros _; exists s; reflexivity | reflexivity].
  - destruct s as [|b s].
    + split; [discriminate | intros [t Ht]; discriminate].
    + destruct (Ascii.eqb_spec a b) as [->|Hab].
      * rewrite IH. split; intros [t Ht]; exists t.
        -- rewrite Ht; reflexivity.
        -- injection Ht; auto.
      * split; [discriminate | intros [t Ht]; injection Ht; congruence].
Qed.

Lemma includes_spec s sub :
  includes s sub = true <-> exists pre post, s = pre +:+ sub +:+ post.
Proof.
  induction s as [|b s IH]; simpl; rewrite orb_true_iff, startsWith_spec.
  - split.
    + intros [[t Ht]|]; [|discriminate]. exists EmptyString, t; exact Ht.
    + intros ([|c pre] & post & H); [|discriminate].
      left. exists post; exact H.
  - rewrite IH. split.
    + intros [[t Ht]|(pre & post & H)].
      * exists EmptyString, t; exact Ht.
      * exists (String b pre), post. simpl. rewrite H; reflexivity.
    + intros ([|c pre] & post & H); simpl in H.
      * left. exists post; exact H.
      * right. injection H as _ H. exists pre, post; exact H.
Qed.

Lemma endsWith_spec s suf :
  endsWith s suf = true <-> exists pre, s = pre +:+ suf.
Proof.
  induction s as [|b s IH]; cbn [endsWith];
    rewrite orb_true_iff, String.eqb_eq.
  - split.
    + intros [<-|]; [|discriminate]. exists EmptyString; reflexivity.
    + intros ([|c pre] & H); simpl in H; [left; exact H | discriminate].
  - rewrite IH. split.
    + intros [<-|[pre H]].
      * exists EmptyString; reflexivity.
      * exists (String b pre). simpl. rewrite H; reflexivity.
    + intros ([|c pre] & H); simpl in H.
      * left; exact H.
      * right. injection H as _ H. exists pre; exact H.
Qed.

End StringSpecs.

(** ** The sweep *)

Section Sweep.
Variable oneHourAgo : Z.

#[local] Abbreviation kept := (kept oneHourAgo).

Lemma cleanupOne_lookup (d : gmap string File) (file name : string) :
  cleanupOne oneHourAgo d file !! name =
  if decide (file = name) then d !! name ≫= kept else d !! name.
Proof.
  unfold cleanupOne, Fs.stat, Fs.unlink, kept; simpl.
  case_decide as Hn.
  - subst. destruct (d !! name) as [f|] eqn:E; simpl; [|exact E].
    destruct (mtime f <? oneHourAgo); [apply lookup_delete_eq | exact E].
  - destruct (d !! file) as [f|]; [|reflexivity].
    destruct (mtime f <? oneHourAgo); [|reflexivity].
    by apply lookup_delete_ne.
Qed.

Lemma kept_twice (o : option File) : (o ≫= kept) ≫= kept = o ≫= kept.
Proof.
  destruct o as [f|]; simpl; [|reflexivity].
  unfold kept. destruct (mtime f <? oneHourAgo) eqn:E; simpl; [reflexivity|].
  by rewrite E.
Qed.

Lemma cleanup_fold_lookup (files : list string) (d : gmap string File)
    (name : string) :
  fold_left (cleanupOne oneHourAgo) files d !! name =
  if decide (name ∈ files) then d !! name ≫= kept else d !! name.
Proof.
  revert d; induction files as [|file files IH]; intros d; cbn [fold_left].
  - destruct (decide (name ∈ [])) as [H|H]; [|reflexivity].
    by apply not_elem_of_nil in H.
  - rewrite IH, cleanupOne_lookup.
    destruct (decide (file = name)) as [->|Hne].
    + rewrite kept_twice.
      destruct (decide (name ∈ name :: files)) as [H|H].
      * by destruct (decide (name ∈ files)).
      * exfalso; apply H, list_elem_of_here.
    + destruct (decide (name ∈ files)) as [Hin|Hnin];
        destruct (decide (name ∈ file :: files)) as [H|H]; try reflexivity.
      * exfalso; apply H. by apply list_elem_of_further.
      * apply elem_of_cons in H as [?|?]; congruence.
Qed.
End Sweep.

Lemma cleanupOldFiles_lookup (now : Z) (d : gmap string File) (name : string) :
  cleanupOldFiles now d !! name = d !! name ≫= kept (now - RETENTION_MS).
Proof.
  unfold cleanupOldFiles, Fs.readdir. rewrite cleanup_fold_lookup.
  case_decide as Hin; [reflexivity|].
  destruct (d !! name) as [f|] eqn:E; [|reflexivity].
  exfalso; apply Hin. apply elem_of_elements, elem_of_dom. by exists f.
Qed.

(** C9. A sweep deletes exactly the files whose modification time is more
    than the retention window (one hour) before the sweep, and leaves every
    other file as it is; it neither reads nor changes the job store, so the
    outcome is the same whatever the jobs' statuses are. *)
Theorem sweep_by_age_only (now : Z) (w : World) (name : string) (f : File) :
  disk w !! name = Some f ->
  (mtime f < now - RETENTION_MS -> disk (sweep now w) !! name = None) /\
  (now - RETENTION_MS <= mtime f -> disk (sweep now w) !! name = Some f) /\
  downloadStatus (sweep now w) = downloadStatus w /\
  (forall jobs log, disk (sweep now (mkWorld jobs (disk w) log))
                    = disk (sweep now w)).
Proof.
  intros Hf. unfold sweep; simpl. rewrite cleanupOldFiles_lookup, Hf; simpl.
  unfold kept. repeat split.
  - intros Hold. apply Z.ltb_lt in Hold. by rewrite Hold.
  - intros Hnew. apply Z.ltb_ge in Hnew. by rewrite Hnew.
Qed.

Lemma sweep_by_age_only_witness :
  let old := mkFile 1000 5000 in
  let fresh := mkFile 9000000 5000 in
  let d : gmap string File := <["old.mp4" := old]> (<["new.mp4" := fresh]> ∅) in
  let w := mkWorld ∅ d [] in
  disk (sweep 10000000 w) !! "old.mp4" = None /\
  disk (sweep 10000000 w) !! "new.mp4" = Some fresh.
Proof.
  intros old fresh d w. split.
  - destruct (sweep_by_age_only 10000000 w "old.mp4" old) as (H & _);
      [reflexivity|].
    apply H. vm_compute; reflexivity.
  - destruct (sweep_by_age_only 10000000 w "new.mp4" fresh) as (_ & H & _);
      [reflexivity|].
    apply H. vm_compute; discriminate.
Defined.

(** ** Choosing the downloaded file *)

Lemma filterO_ok {A} (p : A -> Outcome bool) (q : A -> bool) (l : list A) :
  (forall x, x ∈ l -> p x = Ok (q x)) ->
  filterO p l = Ok (List.filter q l).
Proof.
  induction l as [|x l IH]; intros Hp; simpl; [reflexivity|].
  rewrite (Hp x) by apply list_elem_of_here.
  rewrite IH by (intros y Hy; apply Hp; by apply list_elem_of_further).
  by destruct (q x).
Qed.

Lemma isVideoFile_listed d now downloadId file f :
  d !! file = Some f ->
  isVideoFile d now downloadId file = Ok (matches now downloadId file f).
Proof.
  intros Hf. unfold isVideoFile, matches, or_else, and_then, Fs.stat; simpl.
  rewrite Hf.
  destruct (JsString.includes file downloadId); [reflexivity|].
  by destruct (JsString.endsWith file ".mp4" || JsString.endsWith file ".mp3").
Qed.

Lemma matches_spec now downloadId file f :
  matches now downloadId file f = true <->
  (exists pre post, file = pre +:+ downloadId +:+ post) \/
  (((exists pre, file = pre +:+ ".mp4") \/ (exists pre, file = pre +:+ ".mp3"))
   /\ now - RECENCY_MS < mtime f).
Proof.
  unfold matches.
  rewrite orb_true_iff, andb_true_iff, orb_true_iff.
  rewrite includes_spec, !endsWith_spec, Z.gtb_lt. reflexivity.
Qed.

Lemma candidates_listed d now downloadId file :
  file ∈ candidates d now downloadId ->
  exists f, d !! file = Some f /\ matches now downloadId file f = true.
Proof.
  unfold candidates. rewrite list_elem_of_In, filter_In.
  intros [_ H]. destruct (d !! file) as [f|]; [by exists f | discriminate].
Qed.

Lemma filter_listing d now downloadId :
  filterO (isVideoFile d now downloadId) (elements (dom d))
  = Ok (candidates d now downloadId).
Proof.
  unfold candidates. apply filterO_ok. intros file Hin.
  apply elem_of_elements, elem_of_dom in Hin as [f Hf].
  rewrite Hf. by apply isVideoFile_listed.
Qed.

(** C5. The candidate filter keeps a listed file exactly when its name
    contains the job id, or when its name ends in a media extension (.mp4 or
    .mp3) and, in addition, its modification time is within the last minute:
    the extension and recency tests are conjoined, and the result is joined
    with the name test by OR. *)
Theorem candidate_filter_two_strategies
    (d : gmap string File) (now : Z) (downloadId : string) :
  exists files videoFiles,
    Fs.readdir d = Ok files /\
    filterO (isVideoFile d now downloadId) files = Ok videoFiles /\
    forall file f, d !! file = Some f ->
      (file ∈ videoFiles <->
       (exists pre post, file = pre +:+ downloadId +:+ post) \/
       (((exists pre, file = pre +:+ ".mp4") \/
         (exists pre, file = pre +:+ ".mp3"))
        /\ now - RECENCY_MS < mtime f)).
Proof.
  exists (elements (dom d)), (candidates d now downloadId).
  split; [reflexivity|]. split; [apply filter_listing|].
  intros file f Hf. rewrite <- matches_spec. split.
  - intros (g & Hg & Hm)%candidates_listed. congruence.
  - intros Hm. unfold candidates. apply list_elem_of_In, filter_In. split.
    + apply list_elem_of_In, elem_of_elements, elem_of_dom. by exists f.
    + by rewrite Hf.
Qed.

(** The reduction keeps a file that no listed candidate is newer than. *)
Lemma foldO_newer_max (d : gmap string File) (xs : list string) (acc : string) :
  (forall x, x ∈ acc :: xs -> is_Some (d !! x)) ->
  exists r fr,
    foldO (newer d) xs acc = Ok r /\ r ∈ acc :: xs /\ d !! r = Some fr /\
    forall x fx, x ∈ acc :: xs -> d !! x = Some fx -> mtime fx <= mtime fr.
Proof.
  revert acc; induction xs as [|x xs IH]; intros acc Hall.
  - destruct (Hall acc) as [fa Ha]; [apply list_elem_of_here|].
    exists acc, fa. repeat split; [apply list_elem_of_here | exact Ha |].
    intros y fy Hy Hfy. apply list_elem_of_singleton in Hy as ->.
    rewrite Ha in Hfy. injection Hfy as ->. lia.
  - destruct (Hall acc) as [fa Ha]; [apply list_elem_of_here|].
    destruct (Hall x) as [fx Hx];
      [apply list_elem_of_further, list_elem_of_here|].
    cbn [foldO]. unfold newer at 1, Fs.stat; simpl. rewrite Hx, Ha.
    set (acc' := if mtime fx >? mtime fa then x else acc).
    destruct (IH acc') as (r & fr & Hr & Hin & Hfr & Hmax).
    { intros y Hy. apply Hall. apply elem_of_cons in Hy as [->|Hy].
      - subst acc'. destruct (mtime fx >? mtime fa).
        + apply list_elem_of_further, list_elem_of_here.
        + apply list_elem_of_here.
      - by do 2 apply list_elem_of_further. }
    exists r, fr. split; [exact Hr|]. split; [|split; [exact Hfr|]].
    + apply elem_of_cons in Hin as [->|Hin].
      * subst acc'. destruct (mtime fx >? mtime fa).
        -- apply list_elem_of_further, list_elem_of_here.
        -- apply list_elem_of_here.
      * by do 2 apply list_elem_of_further.
    + assert (Hacc' : exists f', d !! acc' = Some f' /\
                mtime fa <= mtime f' /\ mtime fx <= mtime f').
      { subst acc'. destruct (mtime fx >? mtime fa) eqn:E.
        - apply Z.gtb_lt in E. exists fx. split; [exact Hx | lia].
        - rewrite Z.gtb_ltb in E. apply Z.ltb_ge in E.
          exists fa. split; [exact Ha | lia]. }
      destruct Hacc' as (f' & Hf' & Hle1 & Hle2).
      assert (mtime f' <= mtime fr)
        by (apply (Hmax acc'); [apply list_elem_of_here | exact Hf']).
      intros y fy Hy Hfy.
      apply elem_of_cons in Hy as [->|Hy].
      { rewrite Ha in Hfy. injection Hfy as ->. lia. }
      apply elem_of_cons in Hy as [->|Hy].
      { rewrite Hx in Hfy. injection Hfy as ->. lia. }
      apply (Hmax y); [by apply list_elem_of_further | exact Hfy].
Qed.

Lemma reduceO_newer_max (d : gmap string File) (l : list string) :
  l <> [] ->
  (forall x, x ∈ l -> is_Some (d !! x)) ->
  exists r fr,
    reduceO (newer d) l = Ok r /\ r ∈ l /\ d !! r = Some fr /\
    forall x fx, x ∈ l -> d !! x = Some fx -> mtime fx <= mtime fr.
Proof.
  destruct l as [|x xs]; [congruence|]. intros _ Hall.
  by apply foldO_newer_max.
Qed.

(** What [locateDownload] does to the program state. *)
Lemma locateDownload_spec env downloadId format (w : World) :
  let d := disk w in
  let final := canonicalName downloadId format in
  exists w',
    locateDownload env downloadId format w = (Ok (DownloadsPath final), w') /\
    downloadStatus w' = downloadStatus w /\ writes w' = writes w /\
    match candidates d (now env) downloadId with
    | [] => disk w' = d
    | _ :: _ =>
        exists latest f,
          reduceO (newer d) (candidates d (now env) downloadId) = Ok latest /\
          latest ∈ candidates d (now env) downloadId /\
          d !! latest = Some f /\
          (forall x fx, x ∈ candidates d (now env) downloadId ->
                        d !! x = Some fx -> mtime fx <= mtime f) /\
          disk w' = if String.eqb latest final then d
                    else <[final := f]> (delete latest d)
    end.
Proof.
  intros d final. unfold locateDownload, bind, getDisk, await, Fs.readdir.
  fold d. rewrite filter_listing.
  destruct (candidates d (now env) downloadId) as [|c cs] eqn:Ec.
  - eexists; repeat split; reflexivity.
  - destruct (reduceO_newer_max d (c :: cs)) as (r & fr & Hr & Hin & Hfr & Hmax).
    { congruence. }
    { intros x Hx. rewrite <- Ec in Hx.
      apply candidates_listed in Hx as (f & Hf & _). by exists f. }
    rewrite Hr. unfold Path_eqb, Fs.move, putDisk, ret; simpl. fold final.
    destruct (String.eqb r final) eqn:Eq; simpl.
    + eexists; repeat split; try reflexivity.
      exists r, fr. rewrite Eq. by repeat split.
    + fold d. rewrite Hfr. eexists; repeat split; try reflexivity.
      exists r, fr. rewrite Eq. by repeat split.
Qed.

(** C2. When the filter leaves at least one candidate and the candidates
    have pairwise different modification times, the pipeline picks the
    candidate with the greatest modification time and the file ends up under
    the name [<downloadId>.<format>] in the downloads directory, replacing
    whatever was stored under that name; it is gone from its old name and no
    other entry changes. *)
Theorem latest_candidate_gets_canonical_name
    (env : Browser) (downloadId format : string) (w : World)
    (files videoFiles : list string) :
  Fs.readdir (disk w) = Ok files ->
  filterO (isVideoFile (disk w) (now env) downloadId) files = Ok videoFiles ->
  videoFiles <> [] ->
  (forall a b fa fb, a ∈ videoFiles -> b ∈ videoFiles ->
     disk w !! a = Some fa -> disk w !! b = Some fb ->
     a <> b -> mtime fa <> mtime fb) ->
  exists latest f w',
    latest ∈ videoFiles /\ disk w !! latest = Some f /\
    (forall other g, other ∈ videoFiles -> other <> latest ->
       disk w !! other = Some g -> mtime g < mtime f) /\
    locateDownload env downloadId format w
      = (Ok (DownloadsPath (canonicalName downloadId format)), w') /\
    disk w' !! canonicalName downloadId format = Some f /\
    (latest <> canonicalName downloadId format -> disk w' !! latest = None) /\
    (forall other, other <> latest ->
       other <> canonicalName downloadId format ->
       disk w' !! other = disk w !! other).
Proof.
  intros Hls Hflt Hne Hdistinct.
  injection Hls as <-. rewrite filter_listing in Hflt. injection Hflt as <-.
  destruct (locateDownload_spec env downloadId format w)
    as (w' & Hrun & _ & _ & Hsel).
  destruct (candidates (disk w) (now env) downloadId) as [|c cs] eqn:Ec;
    [congruence|].
  destruct Hsel as (latest & f & _ & Hin & Hf & Hmax & Hdisk).
  exists latest, f, w'. split; [exact Hin|]. split; [exact Hf|]. split.
  { intros other g Ho Hneq Hg.
    specialize (Hmax other g Ho Hg).
    specialize (Hdistinct other latest g f Ho Hin Hg Hf Hneq). lia. }
  split; [exact Hrun|].
  rewrite Hdisk.
  destruct (String.eqb_spec latest (canonicalName downloadId format)) as [<-|Hn].
  - split; [exact Hf|]. split; [congruence | reflexivity].
  - split; [apply lookup_insert_eq|]. split.
    + intros _. rewrite lookup_insert_ne by congruence. apply lookup_delete_eq.
    + intros other H1 H2.
      rewrite lookup_insert_ne by congruence.
      by rewrite lookup_delete_ne by congruence.
Qed.

Lemma latest_candidate_gets_canonical_name_witness :
  exists latest f w',
    latest ∈ ["a.mp4"; "job1.mp4"; "b.mp4"] /\
    sampleDisk !! latest = Some f /\
    (forall other g, other ∈ ["a.mp4"; "job1.mp4"; "b.mp4"] ->
       other <> latest -> sampleDisk !! other = Some g -> mtime g < mtime f) /\
    locateDownload sampleBrowser "job1" "mp4" (mkWorld ∅ sampleDisk [])
      = (Ok (DownloadsPath "job1.mp4"), w') /\
    disk w' !! "job1.mp4" = Some f /\
    (latest <> "job1.mp4" -> disk w' !! latest = None) /\
    (forall other, other <> latest -> other <> "job1.mp4" ->
       disk w' !! other = sampleDisk !! other).
Proof.
  apply (latest_candidate_gets_canonical_name sampleBrowser "job1" "mp4"
           (mkWorld ∅ sampleDisk []) ["a.mp4"; "job1.mp4"; "b.mp4"]
           ["a.mp4"; "job1.mp4"; "b.mp4"]).
  - vm_compute; reflexivity.
  - vm_compute; reflexivity.
  - discriminate.
  - intros a b fa fb Ha Hb Hfa Hfb Hab.
    repeat (apply elem_of_cons in Ha as [->|Ha]);
      try (by apply not_elem_of_nil in Ha);
      repeat (apply elem_of_cons in Hb as [->|Hb]);
      try (by apply not_elem_of_nil in Hb);
      try congruence;
      vm_compute in Hfa, Hfb;
      injection Hfa as <-; injection Hfb as <-; discriminate.
Defined.

(** ** The pipeline as a whole *)

(** Case analysis on how each awaited call settles. *)
Ltac settle :=
  repeat match goal with
  | |- context [match ?o with Ok _ => _ | Throw _ => _ end] =>
      destruct o as [[]|?]; cbn
  | |- context [if ?b then _ else _] => destruct b; cbn
  end.

(** The browser phase writes a prefix of the intermediate statuses, all of
    them when it succeeds, and only to the record of its own job. *)
Lemma driveBrowser_log env videoUrl downloadId (w : World) :
  exists added,
    writes (snd (driveBrowser env videoUrl downloadId w)) = writes w ++ added /\
    downloadStatus (snd (driveBrowser env videoUrl downloadId w))
      = replay added (downloadStatus w) /\
    Forall (fun e => fst e = downloadId) added /\
    map statusOfEntry added `prefix_of` browserPhases /\
    (fst (driveBrowser env videoUrl downloadId w) = Ok tt ->
     map statusOfEntry added = browserPhases).
Proof.
  destruct env, w as [st d lg].
  unfold driveBrowser, bind, await, setStatus, try_catch, throw, ret,
    getDisk, putDisk.
  cbn. settle.
  all: rewrite <- ?app_assoc; cbn.
  all: try (eexists; split; [rewrite <- (app_nil_r lg) at 1; reflexivity |]).
  all: try (eexists; split; [reflexivity |]).
  all: split; [reflexivity|]; split; [repeat constructor|].
  all: split; [eexists; reflexivity | intros; try discriminate; reflexivity].
Qed.

Lemma validateDownload_spec downloadId (p : Path) (w : World) :
  validateDownload downloadId p w =
  match disk w !! basename p with
  | Some f =>
      if size f >? MIN_SIZE then
        (Ok (JobSuccess downloadId p (size f)
               "Descarga completada exitosamente"),
         snd (setStatus downloadId
                (mkStatus completed 100 "Descarga completada exitosamente"
                   (Some p) (Some (size f))) w))
      else (Throw "Archivo descargado está vacío o es muy pequeño", w)
  | None => (Throw "No se pudo completar la descarga", w)
  end.
Proof.
  unfold validateDownload, bind, getDisk, await, Fs.exists_, Fs.stat, throw.
  destruct (disk w !! basename p) as [f|] eqn:E.
  - rewrite bool_decide_eq_true_2 by (by exists f).
    by destruct (size f >? MIN_SIZE).
  - rewrite bool_decide_eq_false_2; [reflexivity|].
    intros [? ?]; congruence.
Qed.

(** Splitting the call at its first [await] does not change it. *)
Lemma download_split env videoUrl format downloadId (w : World) :
  downloadVideoWithPuppeteer env videoUrl format downloadId w =
  resumeDownload env videoUrl format downloadId
    (snd (beforeFirstAwait downloadId w)).
Proof. reflexivity. Qed.

Lemma closeBrowser_world env (w : World) : snd (closeBrowser env w) = w.
Proof. unfold closeBrowser. by destruct (launch env). Qed.

Lemma try_finally_world {A} (body : M A) (fin : M unit) (w : World) :
  snd (try_finally body fin w) = snd (fin (snd (body w))).
Proof.
  unfold try_finally. destruct (body w) as [r w']; simpl.
  by destruct (fin w') as [[[]|?] w''].
Qed.

Lemma replay_app log1 log2 s : replay (log1 ++ log2) s = replay log2 (replay log1 s).
Proof. unfold replay. apply fold_left_app. Qed.

(** How a resumed pipeline ends: the browser phase adds its statuses, then
    exactly one final record is written, either the success record of a
    checked file or an error record. *)
Lemma resumeDownload_cases env videoUrl format downloadId (w : World) :
  let final := canonicalName downloadId format in
  let w' := snd (resumeDownload env videoUrl format downloadId w) in
  exists mid rec,
    writes w' = writes w ++ mid ++ [(downloadId, rec)] /\
    downloadStatus w' = replay (mid ++ [(downloadId, rec)]) (downloadStatus w) /\
    Forall (fun e => fst e = downloadId) mid /\
    map statusOfEntry mid `prefix_of` browserPhases /\
    ((fst (driveBrowser env videoUrl downloadId w) = Ok tt /\
      map statusOfEntry mid = browserPhases /\
      exists f, disk w' !! final = Some f /\ MIN_SIZE < size f /\
        rec = mkStatus completed 100 "Descarga completada exitosamente"
                (Some (DownloadsPath final)) (Some (size f)))
     \/
     (exists msg,
        rec = mkStatus error 0 ("Error: " +:+ msg) None None /\
        (fst (driveBrowser env videoUrl downloadId w) = Ok tt ->
         match disk w' !! final with
         | Some f => size f <= MIN_SIZE /\
                     msg = "Archivo descargado está vacío o es muy pequeño"
         | None => msg = "No se pudo completar la descarga"
         end))).
Proof.
  intros final w'. subst w'.
  unfold resumeDownload. rewrite try_finally_world, closeBrowser_world.
  destruct (driveBrowser_log env videoUrl downloadId w)
    as (mid & Hlog & Hstore & Hkeys & Hpre & Hfull).
  unfold try_catch, afterFirstAwait, bind.
  destruct (driveBrowser env videoUrl downloadId w) as [r w1]; simpl in *.
  exists mid.
  destruct r as [[]|msg].
  - unfold materialize, bind.
    destruct (locateDownload_spec env downloadId format w1)
      as (w2 & Hloc & Hst2 & Hlog2 & _).
    rewrite Hloc, validateDownload_spec. simpl. fold final.
    destruct (disk w2 !! final) as [f|] eqn:Ef.
    + destruct (size f >? MIN_SIZE) eqn:Esz.
      * eexists; simpl. rewrite Hlog2, Hlog, Hst2, Hstore, replay_app, <- app_assoc.
        repeat split; try done.
        left. repeat split; [by apply Hfull|].
        exists f. rewrite Ef. apply Z.gtb_lt in Esz. done.
      * eexists; simpl. rewrite Hlog2, Hlog, Hst2, Hstore, replay_app, <- app_assoc.
        repeat split; try done.
        right. eexists; split; [reflexivity|]. intros _. rewrite Ef.
        rewrite Z.gtb_ltb in Esz. apply Z.ltb_ge in Esz. done.
    + eexists; simpl. rewrite Hlog2, Hlog, Hst2, Hstore, replay_app, <- app_assoc.
      repeat split; try done.
      right. eexists; split; [reflexivity|]. intros _. by rewrite Ef.
  - eexists; simpl. rewrite Hlog, Hstore, replay_app, <- app_assoc.
    repeat split; try done.
    right. eexists; split; [reflexivity|]. discriminate.
Qed.

Lemma resumeDownload_disk env videoUrl format downloadId (w : World) :
  fst (driveBrowser env videoUrl downloadId w) = Ok tt ->
  disk (snd (resumeDownload env videoUrl format downloadId w)) =
  disk (snd (locateDownload env downloadId format
               (snd (driveBrowser env videoUrl downloadId w)))).
Proof.
  intros Hok. unfold resumeDownload.
  rewrite try_finally_world, closeBrowser_world.
  unfold try_catch, afterFirstAwait, bind.
  destruct (driveBrowser env videoUrl downloadId w) as [r w1]; simpl in *.
  subst r. unfold materialize, bind.
  destruct (locateDownload_spec env downloadId format w1)
    as (w2 & Hloc & _).
  rewrite Hloc, validateDownload_spec; simpl.
  destruct (disk w2 !! _) as [f|]; [|reflexivity].
  by destruct (size f >? MIN_SIZE).
Qed.

Lemma replay_last log (downloadId : string) rec s :
  replay (log ++ [(downloadId, rec)]) s !! downloadId = Some rec.
Proof. rewrite replay_app. simpl. apply lookup_insert_eq. Qed.

(** C6. After a run of the pipeline the job's record exists, and
    - if the file under the job's final name is 1000 bytes or smaller, the
      record is an error record (status 'error', a message, no filePath and
      no fileSize), never 'completed';
    - if the browser phase went through, that message is the one for an
      empty or too small file, and this holds in particular when the small
      file is the most recently modified candidate, which the pipeline has
      just moved to the final name;
    - a 'completed' record is written only for a file that exists under the
      final name and is larger than 1000 bytes, with that path and size. *)
Theorem small_artifact_fails_job
    (env : Browser) (videoUrl : Json) (format downloadId : string) (w : World) :
  let final := canonicalName downloadId format in
  let w' := snd (downloadVideoWithPuppeteer env videoUrl format downloadId w) in
  let driven := driveBrowser env videoUrl downloadId
                  (snd (beforeFirstAwait downloadId w)) in
  let tooSmall :=
    mkStatus error 0
      "Error: Archivo descargado está vacío o es muy pequeño" None None in
  exists st, downloadStatus w' !! downloadId = Some st /\
    (forall f, disk w' !! final = Some f -> size f <= MIN_SIZE ->
       status st = error /\ filePath st = None /\ fileSize st = None /\
       exists reason, message st = "Error: " +:+ reason) /\
    (fst driven = Ok tt ->
       (forall f, disk w' !! final = Some f -> size f <= MIN_SIZE ->
          st = tooSmall) /\
       (forall latest f,
          reduceO (newer (disk (snd driven)))
            (candidates (disk (snd driven)) (now env) downloadId) = Ok latest ->
          disk (snd driven) !! latest = Some f ->
          size f <= MIN_SIZE -> st = tooSmall)) /\
    (status st = completed ->
       exists f, disk w' !! final = Some f /\ MIN_SIZE < size f /\
         filePath st = Some (DownloadsPath final) /\
         fileSize st = Some (size f)).
Proof.
  intros final w' driven tooSmall. subst w'. rewrite download_split.
  set (w1 := snd (beforeFirstAwait downloadId w)) in *.
  pose proof (resumeDownload_disk env videoUrl format downloadId w1) as Hdisk.
  destruct (resumeDownload_cases env videoUrl format downloadId w1)
    as (mid & rec & _ & Hstore & _ & _ & Hend).
  fold final in Hend.
  set (w' := snd (resumeDownload env videoUrl format downloadId w1)) in *.
  exists rec. split.
  { rewrite Hstore. apply replay_last. }
  destruct Hend as [(Hok & _ & f & Hf & Hbig & ->)|(msg & -> & Hmsg)].
  - split; [|split].
    + intros g Hg Hsmall. rewrite Hf in Hg. injection Hg as <-. lia.
    + intros _. split.
      * intros g Hg Hsmall. rewrite Hf in Hg. injection Hg as <-. lia.
      * intros latest g Hred Hg Hsmall. exfalso.
        specialize (Hdisk Hok). fold driven in Hdisk.
        destruct (locateDownload_spec env downloadId format (snd driven))
          as (w2 & Hloc & _ & _ & Hsel).
        rewrite Hloc in Hdisk; simpl in Hdisk.
        destruct (candidates (disk (snd driven)) (now env) downloadId)
          as [|c cs]; [discriminate|].
        destruct Hsel as (l' & f' & Hred' & _ & Hf' & _ & Hd2).
        rewrite Hred in Hred'. injection Hred' as <-.
        rewrite Hg in Hf'. injection Hf' as <-.
        assert (disk w2 !! canonicalName downloadId format = Some g) as Hfin.
        { rewrite Hd2.
          destruct (String.eqb_spec latest (canonicalName downloadId format))
            as [<-|?]; [exact Hg | apply lookup_insert_eq]. }
        fold final in Hfin. rewrite <- Hdisk, Hf in Hfin.
        injection Hfin as ->. lia.
    + intros _. exists f. by repeat split.
  - split; [|split].
    + intros g Hg Hsmall. simpl. repeat split. by exists msg.
    + intros Hok. specialize (Hmsg Hok). split.
      * intros g Hg Hsmall. rewrite Hg in Hmsg. destruct Hmsg as [_ ->].
        reflexivity.
      * intros latest g Hred Hg Hsmall.
        specialize (Hdisk Hok). fold driven w' in Hdisk.
        destruct (locateDownload_spec env downloadId format (snd driven))
          as (w2 & Hloc & _ & _ & Hsel).
        rewrite Hloc in Hdisk; simpl in Hdisk.
        destruct (candidates (disk (snd driven)) (now env) downloadId)
          as [|c cs]; [discriminate|].
        destruct Hsel as (l' & f' & Hred' & _ & Hf' & _ & Hd2).
        rewrite Hred in Hred'. injection Hred' as <-.
        rewrite Hg in Hf'. injection Hf' as <-.
        assert (disk w2 !! canonicalName downloadId format = Some g) as Hfin.
        { rewrite Hd2.
          destruct (String.eqb_spec latest (canonicalName downloadId format))
            as [<-|?]; [exact Hg | apply lookup_insert_eq]. }
        fold final in Hfin. rewrite <- Hdisk in Hfin.
        rewrite Hfin in Hmsg. destruct Hmsg as [_ ->]. reflexivity.
    + discriminate.
Qed.

(** ** Status sequences *)

Lemma phaseWalk_nil : phaseWalk [].
Proof. split; [constructor | intros i s H; by destruct i]. Qed.

Lemma phaseWalk_starting : phaseWalk [starting].
Proof.
  split; [repeat constructor|].
  intros [|i] s H Ht; simpl in *; [|done]. by injection H as <-.
Qed.

Lemma phaseWalk_finished mid final :
  mid `prefix_of` browserPhases -> terminal final = true ->
  phaseWalk (starting :: mid ++ [final]).
Proof.
  intros [k Hk] Hfin. unfold browserPhases in Hk.
  assert (Hmid : mid = [] \/ mid = [loading] \/ mid = [loading; filling] \/
                 mid = [loading; filling; processing] \/
                 mid = [loading; filling; processing; downloading]).
  { repeat (destruct mid as [|? mid]; simplify_eq/=; auto 6). }
  destruct final; try discriminate;
    destruct Hmid as [->|[->|[->|[->| ->]]]]; (split;
      [ repeat constructor; cbn; lia
      | intros i s Hi Ht;
        repeat (destruct i as [|i]; simpl in *; simplify_eq; try done) ]).
Qed.

Lemma statusesOf_app downloadId log1 log2 :
  statusesOf downloadId (log1 ++ log2)
  = statusesOf downloadId log1 ++ statusesOf downloadId log2.
Proof. unfold statusesOf. by rewrite List.filter_app, map_app. Qed.

Lemma statusesOf_own downloadId log :
  Forall (fun e => fst e = downloadId) log ->
  statusesOf downloadId log = map statusOfEntry log.
Proof.
  unfold statusesOf. induction 1 as [|e log He _ IH]; [reflexivity|].
  cbn [List.filter]. rewrite He, String.eqb_refl. cbn. by rewrite IH.
Qed.

Lemma statusesOf_other downloadId other log :
  other <> downloadId ->
  Forall (fun e => fst e = other) log ->
  statusesOf downloadId log = [].
Proof.
  intros Hne. unfold statusesOf. induction 1 as [|e log He _ IH]; [reflexivity|].
  cbn [List.filter]. rewrite He.
  destruct (String.eqb_spec other downloadId); [congruence | exact IH].
Qed.

Lemma statusesOf_unissued downloadId log :
  downloadId ∉ map fst log -> statusesOf downloadId log = [].
Proof.
  unfold statusesOf. induction log as [|e log IH]; [reflexivity|].
  intros Hnin. cbn [List.filter].
  destruct (String.eqb_spec (fst e) downloadId) as [Heq|_].
  - exfalso; apply Hnin. rewrite <- Heq. apply list_elem_of_here.
  - apply IH. intros Hin. apply Hnin. by apply list_elem_of_further.
Qed.

(** One run: everything it writes goes to its own job's record, and the
    statuses are 'starting', then a prefix of the intermediate ones, then
    one final status. *)
Lemma download_log env videoUrl format downloadId (w : World) :
  exists added mid final,
    writes (snd (downloadVideoWithPuppeteer env videoUrl format downloadId w))
      = writes w ++ added /\
    Forall (fun e => fst e = downloadId) added /\
    map statusOfEntry added = starting :: mid ++ [final] /\
    mid `prefix_of` browserPhases /\ terminal final = true.
Proof.
  rewrite download_split.
  destruct (resumeDownload_cases env videoUrl format downloadId
              (snd (beforeFirstAwait downloadId w)))
    as (mid & rec & Hlog & _ & Hkeys & Hpre & Hend).
  eexists (_ :: mid ++ [(downloadId, rec)]), (map statusOfEntry mid),
    (status rec).
  split; [rewrite Hlog; simpl; by rewrite <- app_assoc|].
  split.
  { constructor; [reflexivity|]. apply Forall_app. split; [exact Hkeys|].
    by repeat constructor. }
  split; [cbn; by rewrite map_app|].
  split; [exact Hpre|].
  destruct Hend as [(_ & _ & f & _ & _ & ->)|(msg & -> & _)]; reflexivity.
Qed.

(** ** The invariant of the service *)

Lemma jobShape_ext srv srv' downloadId :
  writes (world srv') = writes (world srv) ->
  pending srv' = pending srv ->
  jobShape srv downloadId -> jobShape srv' downloadId.
Proof.
  unfold jobShape, issued, pendingIds. by intros -> ->.
Qed.

Lemma serverInv_post req uuid srv :
  uuid ∉ issued srv -> serverInv srv ->
  serverInv (snd (postDownload req uuid srv)).
Proof.
  intros Hfresh [Hnd Hshape]. unfold postDownload.
  destruct (truthy (videoUrl req)); simpl; [|by split].
  destruct (supportedFormat _) as [fmt|]; simpl; [|by split].
  assert (Hnp : uuid ∉ pendingIds srv).
  { destruct (Hshape uuid) as [(_ & _ & H)|[(Hseq & _)|(H & _)]]; try done.
    rewrite statusesOf_unissued in Hseq by exact Hfresh. discriminate. }
  split.
  - unfold pendingIds; simpl. rewrite map_app; simpl.
    apply NoDup_app. split; [exact Hnd|]. split.
    + intros x Hx ->%list_elem_of_singleton. by apply Hnp.
    + apply NoDup_singleton.
  - intros id. unfold jobShape, issued, pendingIds; simpl.
    rewrite statusesOf_app, !map_app; simpl.
    destruct (decide (id = uuid)) as [->|Hne].
    + right; left. rewrite statusesOf_unissued by exact Hfresh.
      split.
      * unfold statusesOf; simpl. by rewrite String.eqb_refl.
      * apply elem_of_app. right. apply list_elem_of_here.
    + assert (Hone : statusesOf id
                [(uuid, mkStatus starting 0 "Iniciando navegador..." None None)]
              = []).
      { apply (statusesOf_other _ uuid); [congruence|]. by repeat constructor. }
      rewrite Hone, app_nil_r.
      assert (Hmem : forall l : list string, id ∈ l ++ [uuid] <-> id ∈ l).
      { intros l. rewrite elem_of_app, list_elem_of_singleton. tauto. }
      rewrite !Hmem. exact (Hshape id).
Qed.

Lemma serverInv_resume env t before after srv :
  pending srv = before ++ t :: after -> serverInv srv ->
  serverInv
    {| world := snd (resumeDownload env (taskUrl t) (taskFormat t) (taskId t)
                       (world srv));
       pending := before ++ after |}.
Proof.
  intros Hp [Hnd Hshape].
  unfold pendingIds in Hnd. rewrite Hp, map_app in Hnd; simpl in Hnd.
  apply NoDup_app in Hnd as (Hnd1 & Hdisj & Hnd2).
  apply NoDup_cons in Hnd2 as [Hta Hnd2].
  assert (Htb : taskId t ∉ map taskId before).
  { intros H. apply (Hdisj _ H), list_elem_of_here. }
  assert (Hmem : forall id, id <> taskId t ->
            (id ∈ map taskId (before ++ after) <-> id ∈ pendingIds srv)).
  { intros id Hne. unfold pendingIds. rewrite Hp, !map_app; simpl.
    rewrite !elem_of_app, elem_of_cons. tauto. }
  destruct (resumeDownload_cases env (taskUrl t) (taskFormat t) (taskId t)
              (world srv)) as (mid & rec & Hlog & _ & Hkeys & Hpre & Hend).
  assert (Hall : Forall (fun e => fst e = taskId t)
                   (mid ++ [(taskId t, rec)])).
  { apply Forall_app. split; [exact Hkeys | by repeat constructor]. }
  split.
  - unfold pendingIds; simpl. rewrite map_app. apply NoDup_app.
    split; [exact Hnd1|]. split; [|exact Hnd2].
    intros x Hx Hx'. apply (Hdisj x Hx). by apply list_elem_of_further.
  - intros id. unfold jobShape, issued, pendingIds; simpl.
    rewrite Hlog, statusesOf_app.
    destruct (decide (id = taskId t)) as [->|Hne].
    + right; right. split.
      { rewrite map_app, elem_of_app. tauto. }
      destruct (Hshape (taskId t)) as [(_ & _ & H)|[(Hseq & _)|(H & _)]].
      * exfalso; apply H. unfold pendingIds. rewrite Hp, map_app; simpl.
        apply elem_of_app. right. apply list_elem_of_here.
      * rewrite Hseq, statusesOf_own by exact Hall. rewrite map_app; simpl.
        exists (map statusOfEntry mid), (status rec).
        split; [reflexivity|]. split; [exact Hpre|].
        destruct Hend as [(_ & _ & f & _ & _ & ->)|(msg & -> & _)]; reflexivity.
      * exfalso; apply H. unfold pendingIds. rewrite Hp, map_app; simpl.
        apply elem_of_app. right. apply list_elem_of_here.
    + rewrite (statusesOf_other id (taskId t) (mid ++ [(taskId t, rec)]))
        by (congruence || exact Hall).
      rewrite app_nil_r, Hmem by exact Hne.
      assert (Hiss : id ∈ map fst (writes (world srv) ++ mid ++ [(taskId t, rec)])
                     <-> id ∈ issued srv).
      { unfold issued. rewrite map_app, elem_of_app. split; [|tauto].
        intros [H|H]; [exact H|]. exfalso.
        apply list_elem_of_fmap in H as (e & -> & He).
        rewrite Forall_forall in Hall. apply Hne, Hall. exact He. }
      rewrite Hiss. exact (Hshape id).
Qed.

Lemma serverInv_step s s' : serverInv s -> step s s' -> serverInv s'.
Proof.
  intros Hinv Hstep. destruct Hstep.
  - by apply serverInv_post.
  - by apply serverInv_resume.
  - destruct Hinv as [Hnd Hshape]. split; [exact Hnd|].
    intros id. by apply (jobShape_ext srv).
  - destruct Hinv as [Hnd Hshape]. split; [exact Hnd|].
    intros id. by apply (jobShape_ext srv).
Qed.

Lemma serverInv_reachable srv : reachable srv -> serverInv srv.
Proof.
  induction 1 as [d|s s' _ IH Hstep].
  - split; [constructor|]. intros id. left.
    unfold issued, pendingIds; simpl. repeat split; apply not_elem_of_nil.
  - by apply (serverInv_step s).
Qed.

(** The log is faithful: in every reachable state the job store is what
    the logged writes produce, in their order, from the empty store. *)
Lemma reachable_store_is_replay srv :
  reachable srv -> downloadStatus (world srv) = replay (writes (world srv)) ∅.
Proof.
  induction 1 as [d|s s' _ IH Hstep]; [reflexivity|].
  destruct Hstep as [req uuid srv _|env t before after srv _|now srv|d srv];
    try exact IH.
  - unfold postDownload.
    destruct (truthy (videoUrl req)); cbn [negb snd]; [|exact IH].
    destruct (supportedFormat _); cbn [snd]; [|exact IH].
    unfold beforeFirstAwait, setStatus; cbn [snd world downloadStatus writes].
    rewrite replay_app, <- IH. reflexivity.
  - cbn [world].
    destruct (resumeDownload_cases env (taskUrl t) (taskFormat t) (taskId t)
                (world srv)) as (mid & rec & Hlog & Hstore & _).
    rewrite Hlog, Hstore, (replay_app (writes (world srv))), <- IH.
    reflexivity.
Qed.

(** C1. (a) One run of the pipeline writes only to the record of its own
    job; the statuses it writes are 'starting', then some initial part of
    'loading', 'filling', 'processing', 'downloading', then exactly one
    final status ('completed' or 'error'), which is the last write; this
    sequence never goes back in the phase ordering and nothing follows the
    final status.  (b) In every state the service can reach, the statuses
    ever written for any job id form such a walk: once a final status is
    written for a job, no later write for that job exists. *)
Theorem status_sequence_is_walk :
  (forall env videoUrl format downloadId (w : World),
     exists added,
       writes (snd (downloadVideoWithPuppeteer env videoUrl format
                      downloadId w)) = writes w ++ added /\
       Forall (fun e => fst e = downloadId) added /\
       phaseWalk (map statusOfEntry added) /\
       exists final, last (map statusOfEntry added) = Some final /\
                     terminal final = true) /\
  (forall srv, reachable srv ->
     forall downloadId,
       phaseWalk (statusesOf downloadId (writes (world srv)))).
Proof.
  split.
  - intros env videoUrl format downloadId w.
    destruct (download_log env videoUrl format downloadId w)
      as (added & mid & final & Hlog & Hkeys & Hseq & Hpre & Hfin).
    exists added. split; [exact Hlog|]. split; [exact Hkeys|].
    rewrite Hseq. split; [by apply phaseWalk_finished|].
    exists final. split; [|exact Hfin].
    change (starting :: mid ++ [final]) with ((starting :: mid) ++ [final]).
    apply last_snoc.
  - intros srv Hreach id.
    destruct (serverInv_reachable srv Hreach) as [_ Hshape].
    destruct (Hshape id) as [(-> & _)|[(-> & _)|(_ & mid & final & -> & Hpre & Hfin)]].
    + apply phaseWalk_nil.
    + apply phaseWalk_starting.
    + by apply phaseWalk_finished.
Qed.

(** ** Requests for the file *)

(** C10. When the job's record says 'completed' but no file is stored under
    the recorded path any more, the file request is answered with HTTP 404
    and an error body naming the job; nothing is streamed and no exception
    reaches the error middleware. *)
Theorem completed_but_file_gone_is_404
    (downloadId : string) (w : World) (st : StatusRecord) (p : Path) :
  downloadStatus w !! downloadId = Some st ->
  status st = completed ->
  filePath st = Some p ->
  disk w !! basename p = None ->
  getFile downloadId w =
    RespJson 404 (JObj [("error", JStr "Archivo no encontrado");
                        ("downloadId", JStr downloadId)]).
Proof.
  intros Hst Hs Hp Hgone. unfold getFile. rewrite Hst, Hs, Hp; simpl.
  unfold Fs.exists_. rewrite bool_decide_eq_false_2; [reflexivity|].
  rewrite Hgone. by intros [? ?].
Qed.

Lemma completed_but_file_gone_is_404_witness :
  getFile "job1"
    (mkWorld {[ "job1" := doneRecord ]} ∅ []) =
  RespJson 404 (JObj [("error", JStr "Archivo no encontrado");
                      ("downloadId", JStr "job1")]).
Proof.
  apply (completed_but_file_gone_is_404 "job1" _ doneRecord
           (DownloadsPath "job1.mp4")); reflexivity.
Defined.

(** C3, as stated, fails: for a job whose record says 'error' the file
    request is answered with HTTP 202, not 404. *)
Lemma failed_job_file_request_is_not_404 :
  let w := mkWorld {[ "job1" := failedRecord ]} ∅ [] in
  downloadStatus w !! "job1" = Some failedRecord /\
  status failedRecord = error /\
  statusCode (getFile "job1" w) = 202 /\
  statusCode (getFile "job1" w) <> 404.
Proof. vm_compute. repeat split; discriminate. Qed.

(** C3, amended. For a job whose record says 'error' the file request is
    answered with HTTP 202 and the body sent for every job that is not
    completed: the stored status ('error'), progress and message. *)
Theorem failed_job_file_request_is_202
    (downloadId : string) (w : World) (st : StatusRecord) :
  downloadStatus w !! downloadId = Some st ->
  status st = error ->
  getFile downloadId w =
    RespJson 202 (JObj [("error", JStr "Descarga aún en progreso");
                        ("status", JStr "error");
                        ("progress", JNum (progress st));
                        ("message", JStr (message st))]).
Proof.
  intros Hst Hs. unfold getFile. by rewrite Hst, Hs.
Qed.

Lemma failed_job_file_request_is_202_witness :
  getFile "job1" (mkWorld {[ "job1" := failedRecord ]} ∅ []) =
  RespJson 202 (JObj [("error", JStr "Descarga aún en progreso");
                      ("status", JStr "error");
                      ("progress", JNum 0);
                      ("message", JStr "Error: Timeout")]).
Proof.
  apply (failed_job_file_request_is_202 "job1" _ failedRecord); reflexivity.
Defined.

(** C7, as stated, fails: a job can be 'completed' while its file is gone
    (here: a run that completes, then a sweep more than an hour later); the
    file request is then answered with 404 and nothing is streamed. *)
Lemma completed_job_file_request_may_not_stream :
  let w0 := mkWorld ∅ sampleDisk [] in
  let w1 := snd (downloadVideoWithPuppeteer sampleBrowser
                   (JStr "https://kick.com/v") "mp4" "job1" w0) in
  let w2 := sweep 3600201 w1 in
  (status <$> downloadStatus w2 !! "job1") = Some completed /\
  (downloadStatus w2 !! "job1" ≫= fileSize) = Some 7000 /\
  statusCode (getFile "job1" w1) = 200 /\
  statusCode (getFile "job1" w2) = 404 /\
  header "Content-Length" (getFile "job1" w2) = None.
Proof. vm_compute. repeat split. Qed.

Lemma getFile_completed (downloadId : string) (w : World)
    (st : StatusRecord) (p : Path) (f : File) :
  downloadStatus w !! downloadId = Some st -> status st = completed ->
  filePath st = Some p -> disk w !! basename p = Some f ->
  getFile downloadId w =
    RespStream 200
      [("Content-Disposition",
        JStr ("attachment; filename=" +:+ dquote +:+ basename p +:+ dquote));
       ("Content-Length", JNum (size f));
       ("Content-Type", JStr "application/octet-stream")] p.
Proof.
  intros Hst Hs Hp Hf. unfold getFile. rewrite Hst, Hs, Hp; simpl.
  unfold Fs.exists_, Fs.stat. rewrite Hf.
  by rewrite bool_decide_eq_true_2 by (by exists f).
Qed.

(** C7, amended. For a known job id the file request is answered with
    HTTP 202 and the stored status, progress and message while the status is
    not 'completed'.  When it is 'completed' and the recorded file is still
    on disk, the file is streamed as an attachment named after it, with a
    Content-Length equal to the size the file has on disk at that moment;
    this is the recorded [fileSize] whenever the file still has the size it
    had when the job completed. *)
Theorem file_request_by_status
    (downloadId : string) (w : World) (st : StatusRecord) :
  downloadStatus w !! downloadId = Some st ->
  (status st <> completed ->
   getFile downloadId w =
     RespJson 202 (JObj [("error", JStr "Descarga aún en progreso");
                         ("status", JStr (statusName (status st)));
                         ("progress", JNum (progress st));
                         ("message", JStr (message st))])) /\
  (status st = completed ->
   forall p f, filePath st = Some p -> disk w !! basename p = Some f ->
     getFile downloadId w =
       RespStream 200
         [("Content-Disposition",
           JStr ("attachment; filename=" +:+ dquote +:+ basename p +:+ dquote));
          ("Content-Length", JNum (size f));
          ("Content-Type", JStr "application/octet-stream")] p /\
     (fileSize st = Some (size f) ->
      header "Content-Length" (getFile downloadId w) = JNum <$> fileSize st)).
Proof.
  intros Hst. split.
  - intros Hs. unfold getFile. rewrite Hst.
    destruct (status st); try reflexivity. congruence.
  - intros Hs p f Hp Hf.
    pose proof (getFile_completed downloadId w st p f Hst Hs Hp Hf) as Hget.
    split; [exact Hget|].
    intros Hsz. rewrite Hget, Hsz. reflexivity.
Qed.

Lemma file_request_by_status_witness :
  let w := mkWorld {[ "job1" := doneRecord ]}
             {[ "job1.mp4" := mkFile 200 7000 ]} [] in
  getFile "job1" w =
    RespStream 200
      [("Content-Disposition",
        JStr ("attachment; filename=" +:+ dquote +:+ "job1.mp4" +:+ dquote));
       ("Content-Length", JNum 7000);
       ("Content-Type", JStr "application/octet-stream")]
      (DownloadsPath "job1.mp4") /\
  header "Content-Length" (getFile "job1" w) = Some (JNum 7000).
Proof.
  intros w.
  destruct (file_request_by_status "job1" w doneRecord) as [_ H];
    [reflexivity|].
  destruct (H eq_refl (DownloadsPath "job1.mp4") (mkFile 200 7000))
    as [H1 H2]; [reflexivity | reflexivity |].
  split; [exact H1 | apply H2; reflexivity].
Defined.

(** Right after a run that ends in 'completed', the file request streams
    the file with a Content-Length equal to the recorded [fileSize]. *)
Lemma completed_run_serves_recorded_size
    env videoUrl format downloadId (w : World) :
  let w' := snd (downloadVideoWithPuppeteer env videoUrl format downloadId w) in
  forall st, downloadStatus w' !! downloadId = Some st -> status st = completed ->
    statusCode (getFile downloadId w') = 200 /\
    header "Content-Length" (getFile downloadId w') = JNum <$> fileSize st.
Proof.
  intros w' st Hst Hs. subst w'. rewrite download_split in *.
  destruct (resumeDownload_cases env videoUrl format downloadId
              (snd (beforeFirstAwait downloadId w)))
    as (mid & rec & _ & Hstore & _ & _ & Hend).
  pose proof Hst as Hrec. rewrite Hstore, replay_last in Hrec.
  injection Hrec as ->.
  destruct Hend as [(_ & _ & f & Hf & _ & Hrec)|(msg & Hrec & _)];
    [|rewrite Hrec in Hs; discriminate].
  rewrite (getFile_completed _ _ st (DownloadsPath _) f Hst Hs
             ltac:(by rewrite Hrec) Hf).
  by rewrite Hrec.
Qed.

(** ** Requests for a download *)

(** The format test passes exactly for the strings "mp4" and "mp3". *)
Lemma supportedFormat_spec (v : Json) (fmt : string) :
  supportedFormat v = Some fmt <->
  v = JStr fmt /\ (fmt = "mp4" \/ fmt = "mp3").
Proof.
  unfold supportedFormat. destruct v as [| | |s| |]; try (split; [discriminate|]);
    try (intros [? _]; discriminate).
  destruct (String.eqb_spec s "mp4") as [->|H4]; simpl.
  - split; [intros [= <-]; auto | intros [[= ->] _]; reflexivity].
  - destruct (String.eqb_spec s "mp3") as [->|H3].
    + split; [intros [= <-]; auto | intros [[= ->] _]; reflexivity].
    + split; [discriminate | intros [[= ->] [?|?]]; congruence].
Qed.

(** C4, as stated, fails: a request whose format is supported but which has
    no videoUrl is answered with 400 and no job is started. *)
Lemma supported_format_alone_is_not_accepted :
  let req := mkRequest None (Some (JStr "mp4")) None in
  let srv := mkServer (mkWorld ∅ ∅ []) [] in
  supportedFormat (JStr "mp4") = Some "mp4" /\
  statusCode (fst (postDownload req "id-1" srv)) = 400 /\
  snd (postDownload req "id-1" srv) = srv.
Proof. vm_compute. repeat split. Qed.

(** C4, amended. For a request with a videoUrl (any truthy value): when
    the requested format (the [format] field, "mp4" when absent) is "mp4" or
    "mp3", the request is accepted: the response carries the new job id, the
    job's record is created with status 'starting' and its pipeline is
    started; for any other format the response is HTTP 400 and neither the
    job store nor anything else changes. *)
Theorem download_request_by_format
    (req : DownloadRequest) (uuid : string) (srv : Server) :
  truthy (videoUrl req) = true ->
  let requested := default (JStr "mp4") (format req) in
  (forall fmt, requested = JStr fmt -> fmt = "mp4" \/ fmt = "mp3" ->
     statusCode (fst (postDownload req uuid srv)) = 200 /\
     (exists body, fst (postDownload req uuid srv) = RespJson 200 (JObj body) /\
        In ("success", JBool true) body /\ In ("downloadId", JStr uuid) body) /\
     downloadStatus (world (snd (postDownload req uuid srv)))
       = <[uuid := mkStatus starting 0 "Iniciando navegador..." None None]>
           (downloadStatus (world srv)) /\
     pending (snd (postDownload req uuid srv))
       = pending srv ++ [mkTask (default JNull (videoUrl req)) fmt uuid]) /\
  ((forall fmt, requested = JStr fmt -> fmt <> "mp4" /\ fmt <> "mp3") ->
     statusCode (fst (postDownload req uuid srv)) = 400 /\
     snd (postDownload req uuid srv) = srv /\
     downloadStatus (world (snd (postDownload req uuid srv)))
       = downloadStatus (world srv)).
Proof.
  intros Hurl requested. unfold postDownload. rewrite Hurl; simpl.
  fold requested. split.
  - intros fmt Hreq Hfmt.
    assert (H : supportedFormat requested = Some fmt)
      by (apply supportedFormat_spec; auto).
    rewrite H; simpl. split; [reflexivity|]. split; [|by split].
    eexists. split; [reflexivity|]. simpl. auto.
  - intros Hbad.
    destruct (supportedFormat requested) as [fmt|] eqn:E; [|by repeat split].
    apply supportedFormat_spec in E as [E1 E2].
    destruct (Hbad fmt E1) as [? ?]. destruct E2; congruence.
Qed.

Lemma download_request_by_format_witness :
  let good := mkRequest (Some (JStr "https://kick.com/v")) None None in
  let bad := mkRequest (Some (JStr "https://kick.com/v"))
               (Some (JStr "avi")) None in
  let srv := mkServer (mkWorld ∅ ∅ []) [] in
  statusCode (fst (postDownload good "id-1" srv)) = 200 /\
  statusCode (fst (postDownload bad "id-1" srv)) = 400 /\
  snd (postDownload bad "id-1" srv) = srv.
Proof.
  intros good bad srv.
  destruct (download_request_by_format good "id-1" srv) as [Hok _];
    [reflexivity|].
  destruct (download_request_by_format bad "id-1" srv) as [_ Hbad];
    [reflexivity|].
  split.
  - apply (Hok "mp4"); [reflexivity | by left].
  - assert (H : forall fmt, JStr "avi" = JStr fmt ->
                  fmt <> "mp4" /\ fmt <> "mp3")
      by (intros fmt [= <-]; split; discriminate).
    destruct (Hbad H) as (H1 & H2 & _). by split.
Defined.

(** C8. For an accepted request the handler responds with [success],
    the new [downloadId], [statusUrl] and [downloadUrl] while the pipeline it
    called is still waiting on its first [await]: at that point the only
    thing the pipeline has done is to write 'starting', the job is in the
    list of pending continuations, and everything else of the run (whatever
    the browser will do) happens when that continuation is resumed later.
    The response contains nothing of the pipeline's result. *)
Theorem accepted_request_responds_before_pipeline_runs
    (req : DownloadRequest) (uuid fmt : string) (srv : Server) :
  truthy (videoUrl req) = true ->
  supportedFormat (default (JStr "mp4") (format req)) = Some fmt ->
  let url := default JNull (videoUrl req) in
  let srv' := snd (postDownload req uuid srv) in
  fst (postDownload req uuid srv) =
    RespJson 200
      (JObj [("success", JBool true);
             ("downloadId", JStr uuid);
             ("message", JStr "Descarga iniciada");
             ("statusUrl", JStr ("/status/" +:+ uuid));
             ("downloadUrl", JStr ("/file/" +:+ uuid))]) /\
  pending srv' = pending srv ++ [mkTask url fmt uuid] /\
  writes (world srv') =
    writes (world srv) ++
    [(uuid, mkStatus starting 0 "Iniciando navegador..." None None)] /\
  (exists st, downloadStatus (world srv') !! uuid = Some st /\
              terminal (status st) = false) /\
  (forall env,
     resumeDownload env url fmt uuid (world srv')
     = downloadVideoWithPuppeteer env url fmt uuid (world srv)).
Proof.
  intros Hurl Hfmt url srv'. subst srv'. unfold postDownload.
  rewrite Hurl, Hfmt; simpl.
  repeat split.
  eexists. split; [apply lookup_insert_eq | reflexivity].
Qed.

Lemma accepted_request_responds_before_pipeline_runs_witness :
  let req := mkRequest (Some (JStr "https://kick.com/v"))
               (Some (JStr "mp3")) None in
  let srv := mkServer (mkWorld ∅ sampleDisk []) [] in
  fst (postDownload req "id-1" srv) =
    RespJson 200
      (JObj [("success", JBool true);
             ("downloadId", JStr "id-1");
             ("message", JStr "Descarga iniciada");
             ("statusUrl", JStr "/status/id-1");
             ("downloadUrl", JStr "/file/id-1")]) /\
  pending (snd (postDownload req "id-1" srv)) =
    [mkTask (JStr "https://kick.com/v") "mp3" "id-1"].
Proof.
  intros req srv.
  destruct (accepted_request_responds_before_pipeline_runs req "id-1" "mp3" srv)
    as (H1 & H2 & _); [reflexivity | reflexivity |].
  split; [exact H1 | exact H2].
Defined.

(** ** The model at work on sample inputs *)

(** A run in which everything goes well: five statuses, the newest
    download stored under the job's name. *)
Example run_completes :
  let w' := snd (downloadVideoWithPuppeteer sampleBrowser
                   (JStr "https://kick.com/v") "mp4" "job1"
                   (mkWorld ∅ sampleDisk [])) in
  map statusOfEntry (writes w')
    = [starting; loading; filling; processing; downloading; completed] /\
  disk w' !! "job1.mp4" = Some (mkFile 200 7000) /\
  disk w' !! "b.mp4" = None /\
  downloadStatus w' !! "job1" = Some doneRecord.
Proof. vm_compute. repeat split. Qed.

(** The page never loads: two statuses, then the error record. *)
Example run_fails_on_navigation :
  let env := {| launch := Ok tt; newPage := Ok tt;
                goto := Throw "Navigation timeout of 30000 ms exceeded";
                waitForSelector := Ok tt; urlInput := Ok true;
                typeUrl := Ok tt; settle3s := Ok tt; submitForm := Ok tt;
                findDownloadButton := Ok true;
                screenshot := Ok (mkFile 0 0); pageContent := Ok tt;
                describeButton := Ok tt; setDownloadBehavior := Ok tt;
                click := Ok tt; downloadDetected := true; downloaded := ∅;
                settle10s := Ok tt; now := 300; close := Ok tt |} in
  let w' := snd (downloadVideoWithPuppeteer env
                   (JStr "https://kick.com/v") "mp4" "job1"
                   (mkWorld ∅ sampleDisk [])) in
  map statusOfEntry (writes w') = [starting; loading; error] /\
  downloadStatus w' !! "job1" =
    Some (mkStatus error 0
            "Error: Navigation timeout of 30000 ms exceeded" None None) /\
  statusCode (getFile "job1" w') = 202.
Proof. vm_compute. repeat split. Qed.

(** The only download is 10 bytes long: the job fails although the file is
    the newest candidate. *)
Example run_rejects_small_file :
  let d : gmap string File := {[ "clip.mp4" := mkFile 250 10 ]} in
  let w' := snd (downloadVideoWithPuppeteer sampleBrowser
                   (JStr "https://kick.com/v") "mp4" "job1"
                   (mkWorld ∅ d [])) in
  disk w' !! "job1.mp4" = Some (mkFile 250 10) /\
  downloadStatus w' !! "job1" =
    Some (mkStatus error 0
            "Error: Archivo descargado está vacío o es muy pequeño"
            None None).
Proof. vm_compute. repeat split. Qed.

(** Precedence in the filter: an old file whose name contains the job id
    is kept, an old .mp4 without the id is not, a recent one is. *)
Example filter_precedence :
  let d : gmap string File :=
    <["job1.part" := mkFile 0 1]>
      (<["old.mp4" := mkFile 0 1]> (<["new.mp4" := mkFile 99000 1]> ∅)) in
  filterO (isVideoFile d 100000 "job1") ["job1.part"; "old.mp4"; "new.mp4"]
  = Ok ["job1.part"; "new.mp4"].
Proof. vm_compute. reflexivity. Qed.

(** * Further properties of the code *)

(** ** More on the sweep *)

Lemma kept_kept (a b : Z) (o : option File) :
  (o ≫= kept a) ≫= kept b = o ≫= kept (Z.max a b).
Proof.
  destruct o as [f|]; [|reflexivity]. unfold kept; simpl.
  destruct (mtime f <? a) eqn:Ea; simpl.
  - apply Z.ltb_lt in Ea.
    by rewrite (proj2 (Z.ltb_lt (mtime f) (Z.max a b))) by lia.
  - apply Z.ltb_ge in Ea. destruct (mtime f <? b) eqn:Eb.
    + apply Z.ltb_lt in Eb.
      by rewrite (proj2 (Z.ltb_lt (mtime f) (Z.max a b))) by lia.
    + apply Z.ltb_ge in Eb.
      by rewrite (proj2 (Z.ltb_ge (mtime f) (Z.max a b))) by lia.
Qed.

(** X1. Two sweeps in a row leave what one sweep at the later of the two
    times leaves; in particular a repeated sweep at the same time changes
    nothing more. *)
Theorem sweeps_compose (now1 now2 : Z) (d : gmap string File) :
  cleanupOldFiles now2 (cleanupOldFiles now1 d)
  = cleanupOldFiles (Z.max now1 now2) d.
Proof.
  apply map_eq. intros name. rewrite !cleanupOldFiles_lookup, kept_kept.
  f_equal. f_equal. unfold RETENTION_MS. lia.
Qed.

(** X2. A sweep only removes entries: every file left after it was there
    before with the same metadata, so it never creates, renames or touches
    a file. *)
Theorem sweep_only_removes (now : Z) (d : gmap string File) :
  cleanupOldFiles now d ⊆ d.
Proof.
  apply map_subseteq_spec. intros name f.
  rewrite cleanupOldFiles_lookup.
  destruct (d !! name) as [g|]; simpl; [|discriminate].
  unfold kept. destruct (mtime g <? _); [discriminate | done].
Qed.

(** X3. The sweep takes the file of a finished job like any other: once
    the file's modification time is more than the retention time back, a
    sweep removes it, the job's record stays 'completed', and the file
    request is answered with 404. *)
Theorem swept_artifact_is_gone
    (now : Z) (downloadId : string) (w : World) (st : StatusRecord)
    (p : Path) (f : File) :
  downloadStatus w !! downloadId = Some st ->
  status st = completed ->
  filePath st = Some p ->
  disk w !! basename p = Some f ->
  mtime f < now - RETENTION_MS ->
  downloadStatus (sweep now w) !! downloadId = Some st /\
  getFile downloadId (sweep now w) =
    RespJson 404 (JObj [("error", JStr "Archivo no encontrado");
                        ("downloadId", JStr downloadId)]).
Proof.
  intros Hst Hs Hp Hf Hold. split; [exact Hst|].
  unfold getFile, sweep; simpl. rewrite Hst, Hs, Hp; simpl.
  unfold Fs.exists_. rewrite cleanupOldFiles_lookup, Hf; simpl.
  unfold kept. rewrite (proj2 (Z.ltb_lt _ _) Hold).
  rewrite bool_decide_eq_false_2; [reflexivity|]. by intros [? ?].
Qed.

Lemma swept_artifact_is_gone_witness :
  let w := mkWorld {[ "job1" := doneRecord ]}
             {[ "job1.mp4" := mkFile 200 7000 ]} [] in
  downloadStatus (sweep 3600201 w) !! "job1" = Some doneRecord /\
  getFile "job1" (sweep 3600201 w) =
    RespJson 404 (JObj [("error", JStr "Archivo no encontrado");
                        ("downloadId", JStr "job1")]).
Proof.
  intros w.
  apply (swept_artifact_is_gone 3600201 "job1" w doneRecord
           (DownloadsPath "job1.mp4") (mkFile 200 7000));
    try reflexivity.
Defined.

(** ** More on a run of the pipeline *)

Lemma replay_other log (downloadId other : string) s :
  Forall (fun e => fst e = downloadId) log -> other <> downloadId ->
  replay log s !! other = s !! other.
Proof.
  intros Hall Hne. revert s.
  induction Hall as [|e log He _ IH]; intros s; [reflexivity|].
  unfold replay in *. cbn [fold_left]. rewrite IH.
  apply lookup_insert_ne. congruence.
Qed.

Lemma download_store_other env videoUrl format downloadId (w : World) other :
  other <> downloadId ->
  downloadStatus
    (snd (downloadVideoWithPuppeteer env videoUrl format downloadId w))
    !! other
  = downloadStatus w !! other.
Proof.
  intros Hne. rewrite download_split.
  destruct (resumeDownload_cases env videoUrl format downloadId
              (snd (beforeFirstAwait downloadId w)))
    as (mid & rec & _ & Hstore & Hkeys & _).
  rewrite Hstore, (replay_other _ downloadId).
  - simpl. by apply lookup_insert_ne.
  - apply Forall_app. split; [exact Hkeys | by repeat constructor].
  - exact Hne.
Qed.

(** X4. A run of the pipeline for one job never changes the record of any
    other job, however the browser behaves and whether the run succeeds or
    fails. *)
Theorem run_leaves_other_records_alone
    (env : Browser) (videoUrl : Json) (format downloadId other : string)
    (w : World) :
  other <> downloadId ->
  downloadStatus
    (snd (downloadVideoWithPuppeteer env videoUrl format downloadId w))
    !! other
  = downloadStatus w !! other.
Proof. apply download_store_other. Qed.

Lemma run_leaves_other_records_alone_witness :
  downloadStatus
    (snd (downloadVideoWithPuppeteer sampleBrowser (JStr "https://kick.com/v")
            "mp4" "job2"
            (mkWorld {[ "job1" := doneRecord ]} sampleDisk [])))
    !! "job1"
  = Some doneRecord.
Proof.
  rewrite (run_leaves_other_records_alone sampleBrowser _ "mp4" "job2" "job1");
    [reflexivity | discriminate].
Defined.

(** Closing the browser keeps a settled result, or replaces it by the
    error of [browser.close]. *)
Lemma finally_agrees env downloadId (body : M JobResult) (w : World) :
  (exists res, fst (body w) = Ok res /\
               resultAgrees env downloadId (Ok res) (snd (body w))) ->
  resultAgrees env downloadId
    (fst (try_finally body (closeBrowser env) w))
    (snd (try_finally body (closeBrowser env) w)).
Proof.
  intros (res & Hres & Hagree). unfold try_finally, closeBrowser, await, ret.
  destruct (body w) as [r w2]; simpl in *. subst r.
  destruct (launch env) as [[]|?] eqn:El; simpl; [|exact Hagree].
  destruct (close env) as [[]|m] eqn:Ec; simpl; [exact Hagree | by split].
Qed.

(** X5. The value the pipeline returns agrees with the record it leaves:
    a success result carries the path and size stored in a 'completed'
    record, a failure result carries the error text stored, prefixed with
    "Error: ", in an 'error' record.  The returned promise rejects only
    when [browser.close] rejects, and then with that error. *)
Theorem result_agrees_with_record
    (env : Browser) (videoUrl : Json) (format downloadId : string) (w : World) :
  let run := downloadVideoWithPuppeteer env videoUrl format downloadId w in
  match fst run with
  | Ok (JobSuccess i p bytes msg) =>
      i = downloadId /\
      downloadStatus (snd run) !! downloadId
        = Some (mkStatus completed 100 msg (Some p) (Some bytes))
  | Ok (JobFailure i err) =>
      i = downloadId /\
      downloadStatus (snd run) !! downloadId
        = Some (mkStatus error 0 ("Error: " +:+ err) None None)
  | Throw msg => launch env = Ok tt /\ close env = Throw msg
  end.
Proof.
  intros run. subst run.
  change (resultAgrees env downloadId
            (fst (downloadVideoWithPuppeteer env videoUrl format downloadId w))
            (snd (downloadVideoWithPuppeteer env videoUrl format downloadId w))).
  rewrite download_split. set (w1 := snd (beforeFirstAwait downloadId w)).
  unfold resumeDownload. apply finally_agrees.
  unfold try_catch, afterFirstAwait, bind.
  destruct (driveBrowser env videoUrl downloadId w1) as [[[]|msg] w2].
  - unfold materialize, bind.
    destruct (locateDownload_spec env downloadId format w2)
      as (w3 & Hloc & _).
    rewrite Hloc, validateDownload_spec. simpl basename.
    destruct (disk w3 !! _) as [f|];
      [destruct (size f >? MIN_SIZE)|];
      (eexists; split; [reflexivity|]; split;
       [reflexivity | apply lookup_insert_eq]).
  - eexists; split; [reflexivity|]. split;
      [reflexivity | apply lookup_insert_eq].
Qed.

Lemma includes_canonical downloadId format :
  JsString.includes (canonicalName downloadId format) downloadId = true.
Proof.
  apply includes_spec. exists EmptyString, ("." +:+ format). reflexivity.
Qed.

Lemma canonical_is_candidate d now downloadId format f :
  d !! canonicalName downloadId format = Some f ->
  canonicalName downloadId format ∈ candidates d now downloadId.
Proof.
  intros Hf. unfold candidates. apply list_elem_of_In, filter_In. split.
  - apply list_elem_of_In, elem_of_elements, elem_of_dom. by exists f.
  - rewrite Hf. unfold matches. by rewrite includes_canonical.
Qed.

(** X6. When the browser phase went through but the filter finds no file
    in the downloads directory, the job fails with the message
    "No se pudo completar la descarga" and the directory is left as it
    was: a file under the job's final name cannot have been overlooked,
    because its name contains the job id. *)
Theorem no_candidate_fails_job
    (env : Browser) (videoUrl : Json) (format downloadId : string) (w : World)
    (files : list string) :
  let driven := driveBrowser env videoUrl downloadId
                  (snd (beforeFirstAwait downloadId w)) in
  let w' := snd (downloadVideoWithPuppeteer env videoUrl format downloadId w) in
  fst driven = Ok tt ->
  Fs.readdir (disk (snd driven)) = Ok files ->
  filterO (isVideoFile (disk (snd driven)) (now env) downloadId) files = Ok [] ->
  downloadStatus w' !! downloadId
    = Some (mkStatus error 0 "Error: No se pudo completar la descarga"
              None None) /\
  disk w' = disk (snd driven).
Proof.
  intros driven w' Hok Hls Hflt. subst w'. rewrite download_split.
  set (w1 := snd (beforeFirstAwait downloadId w)) in *.
  injection Hls as <-. rewrite filter_listing in Hflt. injection Hflt as Hnone.
  pose proof (resumeDownload_disk env videoUrl format downloadId w1 Hok)
    as Hdisk.
  fold driven in Hdisk.
  destruct (locateDownload_spec env downloadId format (snd driven))
    as (w2 & Hloc & _ & _ & Hsel).
  rewrite Hnone in Hsel. rewrite Hloc in Hdisk; simpl in Hdisk.
  rewrite Hsel in Hdisk.
  assert (Habsent : disk (snd driven) !! canonicalName downloadId format = None).
  { destruct (disk (snd driven) !! canonicalName downloadId format)
      as [f|] eqn:E; [|reflexivity].
    apply (canonical_is_candidate _ (now env)) in E.
    rewrite Hnone in E. by apply not_elem_of_nil in E. }
  destruct (resumeDownload_cases env videoUrl format downloadId w1)
    as (mid & rec & _ & Hstore & _ & _ & Hend).
  split; [|exact Hdisk].
  rewrite Hstore, replay_last. f_equal.
  rewrite Hdisk, Habsent in Hend.
  destruct Hend as [(_ & _ & f & Hf & _)|(msg & -> & Hmsg)]; [discriminate|].
  by rewrite (Hmsg Hok).
Qed.

Lemma no_candidate_fails_job_witness :
  let w := mkWorld ∅ ∅ [] in
  let w' := snd (downloadVideoWithPuppeteer sampleBrowser
                   (JStr "https://kick.com/v") "mp4" "job1" w) in
  downloadStatus w' !! "job1"
    = Some (mkStatus error 0 "Error: No se pudo completar la descarga"
              None None) /\
  disk w' = ∅.
Proof.
  intros w w'.
  apply (no_candidate_fails_job sampleBrowser (JStr "https://kick.com/v")
           "mp4" "job1" w []); reflexivity.
Defined.

(** The reduction keeps its accumulator unless a strictly newer file
    comes. *)
Lemma foldO_newer_first (d : gmap string File) (xs : list string)
    (acc r : string) :
  (forall x, x ∈ acc :: xs -> is_Some (d !! x)) ->
  foldO (newer d) xs acc = Ok r ->
  (r = acc /\ forall x, x ∈ xs -> mtimeOf d x <= mtimeOf d acc) \/
  (exists pre post, xs = pre ++ r :: post /\
     mtimeOf d acc < mtimeOf d r /\
     (forall x, x ∈ pre -> mtimeOf d x < mtimeOf d r) /\
     (forall x, x ∈ post -> mtimeOf d x <= mtimeOf d r)).
Proof.
  revert acc; induction xs as [|x xs IH]; intros acc Hall Hr.
  - injection Hr as <-. left. split; [reflexivity|].
    intros x Hx. by apply not_elem_of_nil in Hx.
  - destruct (Hall acc) as [fa Ha]; [apply list_elem_of_here|].
    destruct (Hall x) as [fx Hx];
      [apply list_elem_of_further, list_elem_of_here|].
    cbn [foldO] in Hr. unfold newer at 1, Fs.stat in Hr; simpl in Hr.
    rewrite Hx, Ha in Hr.
    assert (Hma : mtimeOf d acc = mtime fa) by (unfold mtimeOf; by rewrite Ha).
    assert (Hmx : mtimeOf d x = mtime fx) by (unfold mtimeOf; by rewrite Hx).
    destruct (mtime fx >? mtime fa) eqn:E.
    + apply Z.gtb_lt in E.
      destruct (IH x) as [[-> Hle]|(pre & post & -> & Hlt & Hpre & Hpost)];
        [ | exact Hr | | ].
      { intros y Hy. apply Hall. by apply list_elem_of_further. }
      * right. exists [], xs. split; [reflexivity|]. split; [lia|].
        split; [|exact Hle]. intros y Hy. by apply not_elem_of_nil in Hy.
      * right. exists (x :: pre), post. split; [reflexivity|].
        split; [lia|]. split; [|exact Hpost].
        intros y [->|Hy]%elem_of_cons; [lia | by apply Hpre].
    + rewrite Z.gtb_ltb in E. apply Z.ltb_ge in E.
      destruct (IH acc) as [[-> Hle]|(pre & post & -> & Hlt & Hpre & Hpost)];
        [ | exact Hr | | ].
      { intros y Hy. apply Hall. apply elem_of_cons in Hy as [->|Hy].
        - apply list_elem_of_here.
        - by do 2 apply list_elem_of_further. }
      * left. split; [reflexivity|].
        intros y [->|Hy]%elem_of_cons; [lia | by apply Hle].
      * right. exists (x :: pre), post. split; [reflexivity|].
        split; [exact Hlt|]. split; [|exact Hpost].
        intros y [->|Hy]%elem_of_cons; [lia | by apply Hpre].
Qed.

(** X7. How the choice among candidates breaks ties: the chosen file is the
    first one in listing order that no candidate is newer than.  Every
    candidate before it is strictly older; candidates after it may be
    equally new but are not chosen. *)
Theorem first_of_the_newest_is_chosen
    (d : gmap string File) (videoFiles : list string) (latestFile : string) :
  (forall x, x ∈ videoFiles -> is_Some (d !! x)) ->
  reduceO (newer d) videoFiles = Ok latestFile ->
  exists pre post,
    videoFiles = pre ++ latestFile :: post /\
    (forall x, x ∈ pre -> mtimeOf d x < mtimeOf d latestFile) /\
    (forall x, x ∈ post -> mtimeOf d x <= mtimeOf d latestFile).
Proof.
  intros Hall Hr. destruct videoFiles as [|x xs]; [discriminate|].
  destruct (foldO_newer_first d xs x latestFile Hall Hr)
    as [[-> Hle]|(pre & post & -> & Hlt & Hpre & Hpost)].
  - exists [], xs. split; [reflexivity|]. split; [|exact Hle].
    intros y Hy. by apply not_elem_of_nil in Hy.
  - exists (x :: pre), post. split; [reflexivity|]. split; [|exact Hpost].
    intros y [->|Hy]%elem_of_cons; [exact Hlt | by apply Hpre].
Qed.

Lemma first_of_the_newest_is_chosen_witness :
  let d : gmap string File :=
    <["a.mp4" := mkFile 100 1]>
      (<["b.mp4" := mkFile 200 2]> (<["c.mp4" := mkFile 200 3]> ∅)) in
  exists pre post,
    ["a.mp4"; "b.mp4"; "c.mp4"] = pre ++ "b.mp4" :: post /\
    (forall x, x ∈ pre -> mtimeOf d x < mtimeOf d "b.mp4") /\
    (forall x, x ∈ post -> mtimeOf d x <= mtimeOf d "b.mp4").
Proof.
  intros d.
  apply (first_of_the_newest_is_chosen d ["a.mp4"; "b.mp4"; "c.mp4"] "b.mp4").
  - intros x Hx.
    repeat (apply elem_of_cons in Hx as [->|Hx]; [vm_compute; eauto|]).
    by apply not_elem_of_nil in Hx.
  - vm_compute; reflexivity.
Defined.

(** X8. The filter does not tell the files of other jobs apart: when the
    file chosen for a run is the stored file of another, completed job (a
    recent .mp4 or .mp3 is a candidate for every job), the run renames it
    to its own job's name; the other job's record still says 'completed',
    but its file request is answered with 404 from then on. *)
Theorem run_can_take_file_of_other_job
    (env : Browser) (videoUrl : Json) (format downloadId : string) (w : World)
    (otherId : string) (st : StatusRecord) (name : string)
    (files videoFiles : list string) :
  let driven := driveBrowser env videoUrl downloadId
                  (snd (beforeFirstAwait downloadId w)) in
  let w' := snd (downloadVideoWithPuppeteer env videoUrl format downloadId w) in
  fst driven = Ok tt ->
  otherId <> downloadId ->
  downloadStatus w !! otherId = Some st ->
  status st = completed ->
  filePath st = Some (DownloadsPath name) ->
  Fs.readdir (disk (snd driven)) = Ok files ->
  filterO (isVideoFile (disk (snd driven)) (now env) downloadId) files
    = Ok videoFiles ->
  reduceO (newer (disk (snd driven))) videoFiles = Ok name ->
  name <> canonicalName downloadId format ->
  downloadStatus w' !! otherId = Some st /\
  disk w' !! name = None /\
  getFile otherId w' =
    RespJson 404 (JObj [("error", JStr "Archivo no encontrado");
                        ("downloadId", JStr otherId)]).
Proof.
  intros driven w' Hok Hne Hst Hs Hp Hls Hflt Hred Hname.
  assert (Hst' : downloadStatus w' !! otherId = Some st).
  { subst w'. by rewrite download_store_other. }
  assert (Hgone : disk w' !! name = None).
  { subst w'. rewrite download_split.
    rewrite (resumeDownload_disk env videoUrl format downloadId _ Hok).
    fold driven.
    injection Hls as <-. rewrite filter_listing in Hflt. injection Hflt as <-.
    destruct (locateDownload_spec env downloadId format (snd driven))
      as (w2 & Hloc & _ & _ & Hsel).
    rewrite Hloc; simpl.
    destruct (candidates (disk (snd driven)) (now env) downloadId)
      as [|c cs]; [discriminate|].
    destruct Hsel as (latest & f & Hred' & _ & _ & _ & ->).
    rewrite Hred in Hred'. injection Hred' as <-.
    destruct (String.eqb_spec name (canonicalName downloadId format));
      [congruence|].
    rewrite lookup_insert_ne by congruence. apply lookup_delete_eq. }
  split; [exact Hst'|]. split; [exact Hgone|].
  unfold getFile. rewrite Hst', Hs, Hp; simpl.
  unfold Fs.exists_; simpl. rewrite Hgone.
  rewrite bool_decide_eq_false_2; [reflexivity|]. by intros [? ?].
Qed.

Lemma run_can_take_file_of_other_job_witness :
  let w := mkWorld {[ "job1" := doneRecord ]}
             {[ "job1.mp4" := mkFile 200 7000 ]} [] in
  let w' := snd (downloadVideoWithPuppeteer sampleBrowser
                   (JStr "https://kick.com/v") "mp4" "job2" w) in
  downloadStatus w' !! "job1" = Some doneRecord /\
  disk w' !! "job1.mp4" = None /\
  getFile "job1" w' =
    RespJson 404 (JObj [("error", JStr "Archivo no encontrado");
                        ("downloadId", JStr "job1")]).
Proof.
  intros w w'.
  apply (run_can_take_file_of_other_job sampleBrowser
           (JStr "https://kick.com/v") "mp4" "job2" w "job1" doneRecord
           "job1.mp4" ["job1.mp4"] ["job1.mp4"]);
    try reflexivity; discriminate.
Defined.

(** X9. When the page is reached and filled in but no download button is
    found, and the screenshot succeeds, the run stores the screenshot as
    [debug_<id>.png], ends with status 'error', and the debug route then
    streams that screenshot as image/png. *)
Theorem missing_button_leaves_screenshot
    (env : Browser) (videoUrl : Json) (format downloadId : string) (w : World)
    (shot : File) :
  launch env = Ok tt -> newPage env = Ok tt -> goto env = Ok tt ->
  waitForSelector env = Ok tt -> urlInput env = Ok true ->
  typeUrl env = Ok tt -> settle3s env = Ok tt ->
  findDownloadButton env = Ok false -> screenshot env = Ok shot ->
  let w' := snd (downloadVideoWithPuppeteer env videoUrl format downloadId w) in
  disk w' !! debugName downloadId = Some shot /\
  (status <$> downloadStatus w' !! downloadId) = Some error /\
  getDebug downloadId w' =
    RespStream 200 [("Content-Type", JStr "image/png")]
      (DownloadsPath (debugName downloadId)).
Proof.
  destruct env, w as [st d lg]; simpl.
  intros -> -> -> -> -> -> -> -> ->.
  unfold downloadVideoWithPuppeteer, try_finally, try_catch, beforeFirstAwait,
    afterFirstAwait, driveBrowser, onError, closeBrowser, bind, await,
    setStatus, throw, ret, getDisk, putDisk.
  cbn. settle.
  all: unfold getDebug, Fs.exists_, debugName; cbn.
  all: rewrite ?lookup_insert_eq.
  all: rewrite bool_decide_eq_true_2 by eauto.
  all: done.
Qed.

Lemma missing_button_leaves_screenshot_witness :
  let env := {| launch := Ok tt; newPage := Ok tt; goto := Ok tt;
                waitForSelector := Ok tt; urlInput := Ok true;
                typeUrl := Ok tt; settle3s := Ok tt; submitForm := Ok tt;
                findDownloadButton := Ok false;
                screenshot := Ok (mkFile 250 40000); pageContent := Ok tt;
                describeButton := Ok tt; setDownloadBehavior := Ok tt;
                click := Ok tt; downloadDetected := true; downloaded := ∅;
                settle10s := Ok tt; now := 300; close := Ok tt |} in
  let w' := snd (downloadVideoWithPuppeteer env (JStr "https://kick.com/v")
                   "mp4" "job1" (mkWorld ∅ ∅ [])) in
  disk w' !! "debug_job1.png" = Some (mkFile 250 40000) /\
  (status <$> downloadStatus w' !! "job1") = Some error /\
  getDebug "job1" w' =
    RespStream 200 [("Content-Type", JStr "image/png")]
      (DownloadsPath "debug_job1.png").
Proof.
  intros env w'.
  apply (missing_button_leaves_screenshot env (JStr "https://kick.com/v")
           "mp4" "job1" (mkWorld ∅ ∅ []) (mkFile 250 40000)); reflexivity.
Defined.

(** ** More on the routes *)


(** X11. A job is visible as soon as its request is accepted: before the
    pipeline has done anything else, the status route answers 200 with
    status 'starting' and progress 0 for the new id, and the file route
    answers 202. *)
Theorem accepted_job_is_visible_at_once
    (downloadsDir timestamp : string)
    (req : DownloadRequest) (uuid fmt : string) (srv : Server) :
  truthy (videoUrl req) = true ->
  supportedFormat (default (JStr "mp4") (format req)) = Some fmt ->
  let srv' := snd (postDownload req uuid srv) in
  getStatus downloadsDir timestamp uuid (world srv') =
    RespJson 200
      (JObj [("downloadId", JStr uuid);
             ("status", JStr "starting");
             ("progress", JNum 0);
             ("message", JStr "Iniciando navegador...");
             ("timestamp", JStr timestamp)]) /\
  statusCode (getFile uuid (world srv')) = 202.
Proof.
  intros Hurl Hfmt srv'. subst srv'. unfold postDownload.
  rewrite Hurl, Hfmt; simpl.
  unfold getStatus, getFile; simpl. by rewrite lookup_insert_eq.
Qed.

Lemma accepted_job_is_visible_at_once_witness :
  let req := mkRequest (Some (JStr "https://kick.com/v")) None None in
  let srv := mkServer (mkWorld ∅ ∅ []) [] in
  let srv' := snd (postDownload req "id-1" srv) in
  getStatus "/app/downloads" "2024-01-01T00:00:00.000Z" "id-1" (world srv') =
    RespJson 200
      (JObj [("downloadId", JStr "id-1");
             ("status", JStr "starting");
             ("progress", JNum 0);
             ("message", JStr "Iniciando navegador...");
             ("timestamp", JStr "2024-01-01T00:00:00.000Z")]) /\
  statusCode (getFile "id-1" (world srv')) = 202.
Proof.
  intros req srv srv'.
  apply (accepted_job_is_visible_at_once "/app/downloads"
           "2024-01-01T00:00:00.000Z" req "id-1" "mp4" srv); reflexivity.
Defined.

(** X12. The file route answers with 200, 202 or 404 only: the size
    lookup that follows the existence test cannot fail, so the request
    never ends in the error middleware. *)
Theorem file_request_codes (downloadId : string) (w : World) :
  statusCode (getFile downloadId w) = 200 \/
  statusCode (getFile downloadId w) = 202 \/
  statusCode (getFile downloadId w) = 404.
Proof.
  unfold getFile.
  destruct (downloadStatus w !! downloadId) as [st|]; [|auto].
  destruct (Status_eqb (status st) completed); simpl; [|auto].
  destruct (filePath st) as [p|]; [|auto].
  unfold Fs.exists_, Fs.stat.
  destruct (disk w !! basename p) as [f|] eqn:E.
  - rewrite bool_decide_eq_true_2 by eauto. simpl. auto.
  - rewrite bool_decide_eq_false_2 by (by intros [? ?]). simpl. auto.
Qed.

(** ** More on the states the service can reach *)

Lemma replay_unissued log (downloadId : string) s :
  downloadId ∉ map fst log -> replay log s !! downloadId = s !! downloadId.
Proof.
  revert s; induction log as [|e log IH]; intros s Hnin; [reflexivity|].
  unfold replay in *. cbn [fold_left]. rewrite IH.
  - apply lookup_insert_ne. intros Heq. apply Hnin. rewrite <- Heq.
    apply list_elem_of_here.
  - intros Hin. apply Hnin. by apply list_elem_of_further.
Qed.

Lemma replay_issued log (downloadId : string) s :
  downloadId ∈ map fst log ->
  exists r, replay log s !! downloadId = Some r /\ (downloadId, r) ∈ log.
Proof.
  induction log as [|e log IH] using rev_ind; intros Hin.
  - by apply not_elem_of_nil in Hin.
  - rewrite replay_app. destruct e as [k r]. simpl.
    destruct (decide (k = downloadId)) as [->|Hne].
    + exists r. rewrite lookup_insert_eq. split; [reflexivity|].
      apply elem_of_app. right. apply list_elem_of_here.
    + rewrite map_app, elem_of_app in Hin. destruct Hin as [Hin|Hin].
      * destruct (IH Hin) as (r' & Hr' & Hin').
        exists r'. rewrite lookup_insert_ne by exact Hne.
        split; [exact Hr'|]. apply elem_of_app. by left.
      * simpl in Hin. apply list_elem_of_singleton in Hin. congruence.
Qed.

(** X13. In every state the service can reach, an id that no accepted
    request was given is unknown to both the status route and the file
    route (404 with the same error text), and an id that was given out is
    known to the status route. *)
Theorem known_ids_are_the_issued_ones
    (downloadsDir timestamp downloadId : string) (srv : Server) :
  reachable srv ->
  (downloadId ∉ issued srv ->
     getStatus downloadsDir timestamp downloadId (world srv) =
       RespJson 404 (JObj [("error", JStr "ID de descarga no encontrado");
                           ("downloadId", JStr downloadId)]) /\
     getFile downloadId (world srv) =
       RespJson 404 (JObj [("error", JStr "ID de descarga no encontrado");
                           ("downloadId", JStr downloadId)])) /\
  (downloadId ∈ issued srv ->
     statusCode (getStatus downloadsDir timestamp downloadId (world srv))
     = 200).
Proof.
  intros Hreach. pose proof (reachable_store_is_replay srv Hreach) as Hst.
  unfold issued, getStatus, getFile. rewrite Hst. split.
  - intros Hnin. by rewrite replay_unissued by exact Hnin.
  - intros Hin. destruct (replay_issued _ _ ∅ Hin) as (r & -> & _).
    reflexivity.
Qed.

Lemma known_ids_are_the_issued_ones_witness :
  let srv := snd (postDownload
                    (mkRequest (Some (JStr "https://kick.com/v")) None None)
                    "id-1" (mkServer (mkWorld ∅ ∅ []) [])) in
  statusCode (getStatus "/app/downloads" "t" "id-2" (world srv)) = 404 /\
  statusCode (getFile "id-2" (world srv)) = 404 /\
  statusCode (getStatus "/app/downloads" "t" "id-1" (world srv)) = 200.
Proof.
  intros srv.
  assert (Hreach : reachable srv).
  { apply (reach_step (mkServer (mkWorld ∅ ∅ []) [])); [constructor|].
    apply step_post. apply not_elem_of_nil. }
  destruct (known_ids_are_the_issued_ones "/app/downloads" "t" "id-2" srv Hreach)
    as [H404 _].
  destruct (known_ids_are_the_issued_ones "/app/downloads" "t" "id-1" srv Hreach)
    as [_ H200].
  destruct H404 as [H1 H2].
  { vm_compute. intros H. apply list_elem_of_singleton in H. discriminate. }
  split; [by rewrite H1|]. split; [by rewrite H2|].
  apply H200. vm_compute. apply list_elem_of_here.
Defined.

Lemma replay_last_status log (downloadId : string) r :
  replay log ∅ !! downloadId = Some r ->
  last (statusesOf downloadId log) = Some (status r).
Proof.
  induction log as [|e log IH] using rev_ind; [discriminate|].
  rewrite replay_app, statusesOf_app. destruct e as [k r']. simpl.
  unfold statusesOf at 2; simpl.
  destruct (String.eqb_spec k downloadId) as [->|Hne]; simpl.
  - rewrite lookup_insert_eq. intros [= ->]. apply last_snoc.
  - rewrite lookup_insert_ne by exact Hne. rewrite app_nil_r. exact IH.
Qed.

Lemma replay_is_Some log (downloadId : string) s :
  is_Some (s !! downloadId) -> is_Some (replay log s !! downloadId).
Proof.
  revert s; induction log as [|e log IH]; intros s Hs; [exact Hs|].
  unfold replay in *. cbn [fold_left]. apply IH.
  destruct (decide (fst e = downloadId)) as [<-|Hne].
  - rewrite lookup_insert_eq. eauto.
  - by rewrite lookup_insert_ne.
Qed.

(** X14. A job's record is never removed: whatever happens next (another
    request, the end of a pipeline, a sweep, a change of the directory),
    an id that is known stays known.  The sweep removes files only. *)
Theorem known_id_stays_known (srv srv' : Server) (downloadId : string) :
  step srv srv' ->
  is_Some (downloadStatus (world srv) !! downloadId) ->
  is_Some (downloadStatus (world srv') !! downloadId).
Proof.
  intros Hstep Hknown.
  destruct Hstep as [req uuid srv _|env t before after srv _|now srv|d srv];
    try exact Hknown.
  - unfold postDownload.
    destruct (truthy (videoUrl req)); simpl; [|exact Hknown].
    destruct (supportedFormat _); simpl; [|exact Hknown].
    destruct (decide (uuid = downloadId)) as [->|Hne].
    + rewrite lookup_insert_eq. eauto.
    + by rewrite lookup_insert_ne.
  - cbn [world].
    destruct (resumeDownload_cases env (taskUrl t) (taskFormat t) (taskId t)
                (world srv)) as (mid & rec & _ & Hstore & _).
    rewrite Hstore. by apply replay_is_Some.
Qed.

Lemma known_id_stays_known_witness :
  let srv := mkServer (mkWorld {[ "job1" := failedRecord ]} sampleDisk []) [] in
  is_Some
    (downloadStatus (world (mkServer (sweep 9999999999 (world srv)) []))
       !! "job1").
Proof.
  intros srv.
  apply (known_id_stays_known srv _ "job1"); [apply step_sweep|].
  vm_compute. eauto.
Defined.

(** X15. Once a job's record holds a final status, the record never
    changes again: in every reachable state and for every next event the
    record of a 'completed' or 'error' job is the same afterwards, so
    repeated polling sees one stable answer. *)
Theorem final_record_never_changes
    (srv srv' : Server) (downloadId : string) (r : StatusRecord) :
  reachable srv -> step srv srv' ->
  downloadStatus (world srv) !! downloadId = Some r ->
  terminal (status r) = true ->
  downloadStatus (world srv') !! downloadId = Some r.
Proof.
  intros Hreach Hstep Hr Hfin.
  pose proof (reachable_store_is_replay srv Hreach) as Hst.
  destruct (serverInv_reachable srv Hreach) as [_ Hshape].
  assert (Hissued : downloadId ∈ issued srv).
  { destruct (decide (downloadId ∈ issued srv)) as [H|H]; [exact H|].
    rewrite Hst, replay_unissued in Hr by exact H. discriminate. }
  assert (Hnp : downloadId ∉ pendingIds srv).
  { pose proof Hr as Hlast. rewrite Hst in Hlast.
    apply replay_last_status in Hlast.
    destruct (Hshape downloadId) as [(Hs & _)|[(Hs & _)|(H & _)]];
      [| |exact H]; rewrite Hs in Hlast; simpl in Hlast.
    - discriminate.
    - injection Hlast as Hlast. rewrite <- Hlast in Hfin. discriminate. }
  destruct Hstep as [req uuid srv Hfresh|env t before after srv Hp|now srv|d srv];
    try exact Hr.
  - unfold postDownload.
    destruct (truthy (videoUrl req)); simpl; [|exact Hr].
    destruct (supportedFormat _); simpl; [|exact Hr].
    rewrite lookup_insert_ne; [exact Hr|]. intros ->. by apply Hfresh.
  - cbn [world].
    destruct (resumeDownload_cases env (taskUrl t) (taskFormat t) (taskId t)
                (world srv)) as (mid & rec & _ & Hstore & Hkeys & _).
    rewrite Hstore, (replay_other _ (taskId t)); [exact Hr| |].
    + apply Forall_app. split; [exact Hkeys | by repeat constructor].
    + intros ->. apply Hnp. unfold pendingIds. rewrite Hp, map_app.
      apply elem_of_app. right. apply list_elem_of_here.
Qed.

Lemma final_record_never_changes_witness :
  let srv0 := mkServer (mkWorld ∅ sampleDisk []) [] in
  let req := mkRequest (Some (JStr "https://kick.com/v")) None None in
  let srv1 := snd (postDownload req "job1" srv0) in
  let srv2 := mkServer
                (snd (resumeDownload sampleBrowser (JStr "https://kick.com/v")
                        "mp4" "job1" (world srv1))) [] in
  let srv3 := snd (postDownload req "job2" srv2) in
  downloadStatus (world srv3) !! "job1" = Some doneRecord.
Proof.
  intros srv0 req srv1 srv2 srv3.
  assert (H1 : reachable srv1).
  { apply (reach_step srv0); [constructor|].
    apply step_post. apply not_elem_of_nil. }
  assert (H2 : reachable srv2).
  { apply (reach_step srv1 srv2 H1).
    apply (step_resume sampleBrowser
             (mkTask (JStr "https://kick.com/v") "mp4" "job1") [] [] srv1).
    reflexivity. }
  apply (final_record_never_changes srv2 srv3 "job1" doneRecord H2).
  - apply step_post. vm_compute.
    intros H. repeat (apply elem_of_cons in H as [H|H]; [discriminate|]).
    by apply not_elem_of_nil in H.
  - vm_compute. reflexivity.
  - reflexivity.
Defined.






(** ** The search for the download button *)

Section ButtonSearch.
Variable toLowerCase : string -> string.

#[local] Abbreviation hasKeyword := (Page.hasKeyword toLowerCase).
#[local] Abbreviation findButton := (Page.findDownloadButton toLowerCase).

Lemma find_first {A} (p : A -> bool) (pre post : list A) (x : A) :
  (forall y, y ∈ pre -> p y = false) -> p x = true ->
  List.find p (pre ++ x :: post) = Some x.
Proof.
  intros Hpre Hx. induction pre as [|y pre IH]; simpl.
  - by rewrite Hx.
  - rewrite (Hpre y) by apply list_elem_of_here.
    apply IH. intros z Hz. apply Hpre. by apply list_elem_of_further.
Qed.

(** X17. A keyword beats size and position: if some clickable element
    carries one of the download keywords in its text, value, title or
    aria-label, the search returns the first such element, also when
    large visible buttons without a keyword come before it. *)
Theorem keyword_beats_prominence
    (pre post : list Page.Element) (element : Page.Element) :
  (forall x, x ∈ pre -> hasKeyword x = false) ->
  hasKeyword element = true ->
  findButton (pre ++ element :: post) = Some element.
Proof.
  intros Hpre He. unfold Page.findDownloadButton.
  by rewrite (find_first _ pre post element Hpre He).
Qed.

(** X18. What the search can return: an element of the list that either
    carries a keyword, or is prominent (wider than 100, higher than 30, not
    display none, not hidden) while no element at all carries a keyword and
    no prominent element comes before it; and it returns nothing exactly
    when no element carries a keyword and none is prominent. *)
Theorem button_search_result (clickableElements : list Page.Element) :
  match findButton clickableElements with
  | Some element =>
      element ∈ clickableElements /\
      (hasKeyword element = true \/
       (Page.prominent element = true /\
        forall x, x ∈ clickableElements -> hasKeyword x = false))
  | None =>
      forall x, x ∈ clickableElements ->
        hasKeyword x = false /\ Page.prominent x = false
  end.
Proof.
  unfold Page.findDownloadButton.
  destruct (List.find hasKeyword clickableElements) as [e|] eqn:Ef.
  - apply find_some in Ef as [Hin He]. split; [by apply list_elem_of_In|].
    by left.
  - assert (Hnone : forall x, x ∈ clickableElements -> hasKeyword x = false).
    { intros x Hx. apply (find_none _ _ Ef). by apply list_elem_of_In. }
    destruct (List.filter Page.prominent clickableElements) as [|e es] eqn:Ep;
      simpl.
    + intros x Hx. split; [by apply Hnone|].
      destruct (Page.prominent x) eqn:E; [|reflexivity]. exfalso.
      assert (Hin : In x (List.filter Page.prominent clickableElements)).
      { apply filter_In. split; [by apply list_elem_of_In | exact E]. }
      by rewrite Ep in Hin.
    + assert (Hin : In e (List.filter Page.prominent clickableElements))
        by (rewrite Ep; by left).
      apply filter_In in Hin as [Hin He].
      split; [by apply list_elem_of_In|]. right. by split.
Qed.

End ButtonSearch.

Lemma keyword_beats_prominence_witness :
  Page.prominent signUpButton = true /\
  Page.prominent downloadLink = false /\
  Page.findDownloadButton asciiLower [signUpButton; downloadLink]
  = Some downloadLink.
Proof.
  split; [reflexivity|]. split; [reflexivity|].
  apply (keyword_beats_prominence asciiLower [signUpButton] [] downloadLink).
  - intros x Hx. apply list_elem_of_singleton in Hx as ->. reflexivity.
  - reflexivity.
Defined.

(** X19. After a run that ends in 'completed', the status route reports
    the job with progress 100, the path of the file under the job's final
    name and, as [fileSize], the size that file has on disk. *)
Theorem status_route_reports_artifact
    (downloadsDir timestamp : string)
    (env : Browser) (videoUrl : Json) (format downloadId : string) (w : World)
    (st : StatusRecord) :
  let w' := snd (downloadVideoWithPuppeteer env videoUrl format downloadId w) in
  downloadStatus w' !! downloadId = Some st ->
  status st = completed ->
  exists f,
    disk w' !! canonicalName downloadId format = Some f /\
    getStatus downloadsDir timestamp downloadId w' =
      RespJson 200
        (JObj [("downloadId", JStr downloadId);
               ("status", JStr "completed");
               ("progress", JNum 100);
               ("message", JStr "Descarga completada exitosamente");
               ("filePath",
                JStr (downloadsDir +:+ "/" +:+
                      canonicalName downloadId format));
               ("fileSize", JNum (size f));
               ("timestamp", JStr timestamp)]).
Proof.
  intros w' Hst Hs. subst w'. rewrite download_split in *.
  destruct (resumeDownload_cases env videoUrl format downloadId
              (snd (beforeFirstAwait downloadId w)))
    as (mid & rec & _ & Hstore & _ & _ & Hend).
  pose proof Hst as Hrec. rewrite Hstore, replay_last in Hrec.
  injection Hrec as ->.
  destruct Hend as [(_ & _ & f & Hf & _ & Hrec)|(msg & Hrec & _)];
    [|rewrite Hrec in Hs; discriminate].
  exists f. split; [exact Hf|].
  unfold getStatus. rewrite Hst, Hrec. reflexivity.
Qed.

Lemma status_route_reports_artifact_witness :
  let w' := snd (downloadVideoWithPuppeteer sampleBrowser
                   (JStr "https://kick.com/v") "mp4" "job1"
                   (mkWorld ∅ sampleDisk [])) in
  exists f,
    disk w' !! "job1.mp4" = Some f /\
    getStatus "/app/downloads" "t" "job1" w' =
      RespJson 200
        (JObj [("downloadId", JStr "job1");
               ("status", JStr "completed");
               ("progress", JNum 100);
               ("message", JStr "Descarga completada exitosamente");
               ("filePath", JStr "/app/downloads/job1.mp4");
               ("fileSize", JNum (size f));
               ("timestamp", JStr "t")]).
Proof.
  intros w'.
  apply (status_route_reports_artifact "/app/downloads" "t" sampleBrowser
           (JStr "https://kick.com/v") "mp4" "job1" (mkWorld ∅ sampleDisk [])
           doneRecord); reflexivity.
Defined.
